(** * Gruyere Template Language ([gtl.py]): a shallow embedding and its properties

    The template expander of Gruyere is embedded function by function.
    Python strings are Rocq [string]s, each [ascii] standing for the code
    point of the same number (0..255); Python integers are [Z], converted
    to and from decimal strings as the interpreter does within its limit
    on the number of digits ([Py.int_max_str_digits]); results of
    [str.find] are [Z] with [-1] for "not found", as in the source.
    Exceptions are explicit ([result]); diagnostics written by [_Log] and
    the opening and closing of resource handles are recorded as a trace of
    [event]s; the recursion of [ExpandTemplate] through block bodies and
    included files is bounded by a fuel argument. *)

From Stdlib Require Import ZArith List Bool Ascii String Lia DecimalString.
From Stdlib Require Decimal DecimalPos.
Import ListNotations.

Set Warnings "-register-all".
Local Open Scope string_scope.

(** ** Python string primitives *)

Module Py.

(** [s[n:]] and [s[:n]] for an index already normalised to a [nat]. *)
Fixpoint drop (n : nat) (s : string) : string :=
  match n, s with
  | O, _ => s
  | S _, EmptyString => EmptyString
  | S n', String _ s' => drop n' s'
  end.

Fixpoint take (n : nat) (s : string) : string :=
  match n, s with
  | O, _ => EmptyString
  | S _, EmptyString => EmptyString
  | S n', String c s' => String c (take n' s')
  end.

(** Offset of the first occurrence of [sub] in [s]. *)
Fixpoint find_nat (sub s : string) : option nat :=
  if String.prefix sub s then Some O
  else match s with
       | EmptyString => None
       | String _ s' => option_map S (find_nat sub s')
       end.

Definition len (s : string) : Z := Z.of_nat (String.length s).

(** Normalisation of a slice bound: a negative bound counts from the
    end, and every bound is clipped to [0 .. len s]. *)
Definition clip (n i : Z) : Z :=
  if (i <? 0)%Z then Z.max 0 (i + n) else Z.min i n.

(** [s.find(sub, start)]: lowest index at or after [start] where [sub]
    occurs, [-1] when there is none. *)
Definition find (s sub : string) (start : Z) : Z :=
  let n := len s in
  let st := if (start <? 0)%Z then Z.max 0 (start + n) else start in
  if (n <? st)%Z then (-1)%Z
  else match find_nat sub (drop (Z.to_nat st) s) with
       | Some i => (st + Z.of_nat i)%Z
       | None => (-1)%Z
       end.

(** [s[lo:hi]], [s[lo:]] and [s[:hi]]. *)
Definition slice (s : string) (lo hi : Z) : string :=
  let a := clip (len s) lo in
  let b := clip (len s) hi in
  take (Z.to_nat (b - a)) (drop (Z.to_nat a) s).

Definition slice_from (s : string) (lo : Z) : string :=
  drop (Z.to_nat (clip (len s) lo)) s.

Definition slice_to (s : string) (hi : Z) : string :=
  take (Z.to_nat (clip (len s) hi)) s.

Definition startswith (s p : string) : bool := String.prefix p s.

(** [s.split(sep)] for a one-character separator: always at least one
    field. *)
Fixpoint split (sep : ascii) (s : string) : list string :=
  match s with
  | EmptyString => [EmptyString]
  | String c s' =>
      if Ascii.eqb c sep then EmptyString :: split sep s'
      else match split sep s' with
           | f :: fs => String c f :: fs
           | [] => [String c EmptyString]
           end
  end.

(** [s.split(sep, 1)]: [inl s] is the one-element list (no separator),
    [inr (a, b)] the two-element list cut at the first separator. *)
Fixpoint split1 (sep : ascii) (s : string) : string + string * string :=
  match s with
  | EmptyString => inl EmptyString
  | String c s' =>
      if Ascii.eqb c sep then inr (EmptyString, s')
      else match split1 sep s' with
           | inl r => inl (String c r)
           | inr (a, b) => inr (String c a, b)
           end
  end.

(** [s.replace(c, by)] for a one-character pattern. *)
Fixpoint replace (c : ascii) (by_ : string) (s : string) : string :=
  match s with
  | EmptyString => EmptyString
  | String x s' =>
      (if Ascii.eqb x c then by_ else String x EmptyString) ++ replace c by_ s'
  end.

Definition is_ascii_digit (c : ascii) : bool :=
  let n := nat_of_ascii c in (48 <=? n)%nat && (n <=? 57)%nat.

(** Code points below 256 for which [str.isdigit] holds: the ten ASCII
    digits and the superscripts U+00B2, U+00B3 and U+00B9. *)
Definition is_digit_char (c : ascii) : bool :=
  let n := nat_of_ascii c in
  is_ascii_digit c || (n =? 178)%nat || (n =? 179)%nat || (n =? 185)%nat.

Fixpoint forallb_str (p : ascii -> bool) (s : string) : bool :=
  match s with
  | EmptyString => true
  | String c s' => p c && forallb_str p s'
  end.

(** [s.isdigit()]: non-empty and every character a digit. *)
Definition isdigit (s : string) : bool :=
  match s with
  | EmptyString => false
  | _ => forallb_str is_digit_char s
  end.

Fixpoint digits_value (acc : N) (s : string) : N :=
  match s with
  | EmptyString => acc
  | String c s' =>
      digits_value (acc * 10 + (N_of_ascii c - 48))%N s'
  end.

(** The default of [sys.get_int_max_str_digits()]: since Python 3.11 a
    conversion between [int] and a decimal string of more digits raises
    a [ValueError].  The two conversions below are those of the
    interpreter on numbers within this limit; the limit itself is not
    part of them. *)
Definition int_max_str_digits : nat := 4300.

(** [int(s)] on a string for which [isdigit] holds: the decimal value
    when every character is an ASCII digit, [None] (a [ValueError])
    when a superscript digit occurs. *)
Definition int_of_digits (s : string) : option Z :=
  if forallb_str is_ascii_digit s
  then Some (Z.of_N (digits_value 0%N s))
  else None.

(** [str(z)] of an integer, within [int_max_str_digits] digits. *)
Definition str_of_Z (z : Z) : string := NilZero.string_of_int (Z.to_int z).

Definition str_of_nat (n : nat) : string := str_of_Z (Z.of_nat n).

(** [sep.join(l)], and [''.join(l)]. *)
Definition join (sep : string) (l : list string) : string :=
  String.concat sep l.

Definition concat (l : list string) : string :=
  fold_right String.append EmptyString l.

(** The double-quote character, code point 34. *)
Definition dquote : ascii := ascii_of_nat 34.

(** [html.escape(s)] with its default [quote=True]. *)
Fixpoint html_escape (s : string) : string :=
  match s with
  | EmptyString => EmptyString
  | String c s' =>
      (if Ascii.eqb c "&" then "&amp;"
       else if Ascii.eqb c "<" then "&lt;"
       else if Ascii.eqb c ">" then "&gt;"
       else if Ascii.eqb c dquote then "&quot;"
       else if Ascii.eqb c "'" then "&#x27;"
       else String c EmptyString) ++ html_escape s'
  end.

(** *** Values

    The [Value] union of the template context.  A mapping is an
    association list in iteration order, read by its first binding of a
    key; its keys are strings, as are those of every Gruyere context. *)

Inductive Value : Type :=
| VNone
| VBool (b : bool)
| VInt (z : Z)
| VStr (s : string)
| VDict (kvs : list (string * Value))
| VList (l : list Value).

Fixpoint lookup (k : string) (kvs : list (string * Value)) : option Value :=
  match kvs with
  | [] => None
  | (k', v) :: kvs' => if String.eqb k k' then Some v else lookup k kvs'
  end.

(** Python truth value: [bool(v)]. *)
Definition truthy (v : Value) : bool :=
  match v with
  | VNone => false
  | VBool b => b
  | VInt z => negb (z =? 0)%Z
  | VStr s => negb (String.eqb s EmptyString)
  | VDict kvs => match kvs with [] => false | _ => true end
  | VList l => match l with [] => false | _ => true end
  end.

(** [isinstance(v, collections.abc.Mapping)]. *)
Definition isMapping (v : Value) : bool :=
  match v with VDict _ => true | _ => false end.

(** [isinstance(v, collections.abc.Sequence)]: lists, and also [str],
    which Python registers as a [Sequence]. *)
Definition isSequence (v : Value) : bool :=
  match v with VList _ | VStr _ => true | _ => false end.

Fixpoint has_char (c : ascii) (s : string) : bool :=
  match s with
  | EmptyString => false
  | String x s' => Ascii.eqb x c || has_char c s'
  end.

Definition hex_digit (n : nat) : ascii :=
  if (n <? 10)%nat then ascii_of_nat (48 + n) else ascii_of_nat (87 + n).

(** [str.isprintable] on a code point below 256. *)
Definition is_printable (c : ascii) : bool :=
  let n := nat_of_ascii c in
  ((32 <=? n)%nat && (n <? 127)%nat)
  || ((161 <=? n)%nat && negb (n =? 173)%nat).

Definition repr_char (q c : ascii) : string :=
  if Ascii.eqb c q || Ascii.eqb c "\" then String "\" (String c EmptyString)
  else if Ascii.eqb c (ascii_of_nat 9) then "\t"
  else if Ascii.eqb c (ascii_of_nat 10) then "\n"
  else if Ascii.eqb c (ascii_of_nat 13) then "\r"
  else if is_printable c then String c EmptyString
  else let n := nat_of_ascii c in
       String "\" (String "x" (String (hex_digit (n / 16))
                                 (String (hex_digit (n mod 16)) EmptyString))).

Fixpoint flat_map_str (f : ascii -> string) (s : string) : string :=
  match s with
  | EmptyString => EmptyString
  | String c s' => f c ++ flat_map_str f s'
  end.

(** [repr(s)] of a string: single quotes unless the string holds a
    single quote and no double quote. *)
Definition repr_str (s : string) : string :=
  let q := if has_char "'" s && negb (has_char dquote s)
           then dquote else "'"%char in
  String q (flat_map_str (repr_char q) s ++ String q EmptyString).

Fixpoint repr (v : Value) : string :=
  match v with
  | VNone => "None"
  | VBool true => "True"
  | VBool false => "False"
  | VInt z => str_of_Z z
  | VStr s => repr_str s
  | VDict kvs =>
      "{" ++ join ", " (map (fun kv => let '(k, x) := kv in
                                       repr_str k ++ ": " ++ repr x) kvs) ++ "}"
  | VList l => "[" ++ join ", " (map repr l) ++ "]"
  end.

(** [str(v)]. *)
Definition str (v : Value) : string :=
  match v with
  | VStr s => s
  | _ => repr v
  end.

(** *** Exceptions and results *)

Inductive exn : Type :=
| AttributeError
| IndexError
| KeyError
| NameError
| ValueError
| IOError
| OtherError (what : string).

Inductive result (A : Type) : Type :=
| Ok (a : A)
| Raise (e : exn).
Arguments Ok {A} a.
Arguments Raise {A} e.

Definition bindR {A B} (r : result A) (k : A -> result B) : result B :=
  match r with
  | Ok a => k a
  | Raise e => Raise e
  end.

(** [len(v)], [k in v], [v[k]] and [v[i]] on the values the expander
    applies them to. *)
Definition length_of (v : Value) : Z :=
  match v with
  | VStr s => len s
  | VList l => Z.of_nat (List.length l)
  | VDict kvs => Z.of_nat (List.length kvs)
  | _ => 0%Z
  end.

Definition contains (v : Value) (k : string) : bool :=
  match v with
  | VDict kvs => match lookup k kvs with Some _ => true | None => false end
  | _ => false
  end.

Definition getitem_key (v : Value) (k : string) : result Value :=
  match v with
  | VDict kvs => match lookup k kvs with Some x => Ok x | None => Raise KeyError end
  | _ => Raise (OtherError "TypeError")
  end.

Definition getitem_int (v : Value) (i : Z) : result Value :=
  if ((i <? 0) || (length_of v <=? i))%Z then Raise IndexError
  else match v with
       | VList l => match nth_error l (Z.to_nat i) with
                    | Some x => Ok x
                    | None => Raise IndexError
                    end
       | VStr s => match String.get (Z.to_nat i) s with
                   | Some c => Ok (VStr (String c EmptyString))
                   | None => Raise IndexError
                   end
       | _ => Raise (OtherError "TypeError")
       end.

(** Unpacking the list returned by [split(sep, 1)] into two targets. *)
Definition unpack2 (l : string + string * string) : result (string * string) :=
  match l with
  | inl _ => Raise ValueError
  | inr p => Ok p
  end.

End Py.

Import Py.

(** ** Effects of the block pass *)

(** What an expansion does besides computing a string: [_Log] writes a
    diagnostic, [gruyere._Open] hands out a resource handle, [f.close()]
    releases it.  Handles are numbered. *)
Inductive event : Type :=
| EvLog (message : string)
| EvOpen (f : nat)
| EvClose (f : nat).

(** A computation of the block pass: the trace it leaves, and how it ends;
    [None] stands for a recursion that the fuel cut short. *)
Definition M (A : Type) : Type := (list event * option (result A))%type.

Definition ret {A} (a : A) : M A := ([], Some (Ok a)).
Definition raise {A} (e : exn) : M A := ([], Some (Raise e)).
Definition out_of_fuel {A} : M A := ([], None).
Definition lift {A} (r : result A) : M A := ([], Some r).
Definition emit (ev : event) : M unit := ([ev], Some (Ok tt)).

Definition bind {A B} (m : M A) (k : A -> M B) : M B :=
  match m with
  | (tr, Some (Ok a)) => let (tr', r) := k a in ((tr ++ tr')%list, r)
  | (tr, Some (Raise e)) => (tr, Some (Raise e))
  | (tr, None) => (tr, None)
  end.

Declare Scope gtl_scope.
Delimit Scope gtl_scope with gtl.
Notation "x <- m ;; k" := (bind m (fun x => k))
  (at level 61, m at next level, right associativity) : gtl_scope.
Notation "m ;;; k" := (bind m (fun _ => k))
  (at level 61, right associativity) : gtl_scope.
Notation "x <~ r ;; k" := (bindR r (fun x => k))
  (at level 61, r at next level, right associativity) : gtl_scope.
Local Open Scope gtl_scope.

(** [_Log(message)]. *)
Definition _Log (message : string) : M unit := emit (EvLog message).

(** ** External collaborators

    [gruyere] and [sanitize] are imported by [gtl.py] and are not part of
    it; the expander is embedded over any behaviour of theirs.
    [gruyere_Open location filename] either returns a handle or raises;
    [file_read f] returns the text that [str(f.read())] yields, or raises;
    [os_sep] is [os.sep]. *)
Record Collaborators : Type := {
  RESOURCE_PATH : string;
  gruyere_Open : string -> string -> result nat;
  file_read : nat -> result string;
  os_sep : string;
  SanitizeHtml : string -> result string
}.

(** ** The expander *)

Definition BLOCK_OPEN := "[[".
Definition END_BLOCK_OPEN := "[[/".
Definition BLOCK_CLOSE := "]]".
Definition VAR_OPEN := "{{".
Definition VAR_CLOSE := "}}".
Definition FOR_TAG := "for".
Definition IF_TAG := "if".
Definition INCLUDE_TAG := "include".

(** [_FindTag]: [None] is the triple [(None, None, None)]. *)
Definition _FindTag (template open_marker close_marker : string)
  : option (string * Z * Z) :=
  let open_pos := find template open_marker 0 in
  let close_pos := find template close_marker open_pos in
  if ((open_pos <? 0) || (close_pos <? 0) || (close_pos <? open_pos))%Z
  then None
  else Some (slice template (open_pos + len open_marker) close_pos,
             open_pos,
             (close_pos + len close_marker)%Z).

(** [_GetValue]. *)
Definition _GetValue (collection : Value) (index : string) (default : Value)
  : result Value :=
  if isMapping collection && contains collection index
  then getitem_key collection index
  else if isSequence collection && isdigit index
  then match int_of_digits index with
       | None => Raise ValueError
       | Some i => if (i <? length_of collection)%Z
                   then getitem_int collection i
                   else Ok default
       end
  else Ok default.

Section Resolver.

Variable specials : list (string * Value).
Variable params : Value.
Variable name : string.

(** One turn of the loop of [_ExpandValue] over the fields of the
    path: [value] is the running value, [field] the loop variable [v]. *)
Definition _ExpandValue_step (default : Value) (value : Value) (field : string)
  : result Value :=
  let v := if String.eqb field "*_this" then params else VStr field in
  v <~ match v with
       | VStr s =>
           if startswith s "*"
           then p <~ getitem_key (VDict specials) "_params" ;;
                v' <~ _GetValue p (slice_from s 1) (VStr EmptyString) ;;
                if isSequence v' then getitem_int v' 0 else Ok v'
           else Ok v
       | _ => Raise AttributeError
       end ;;
  _GetValue value (str v) default.

Fixpoint _ExpandValue_loop (default : Value) (fields : list string) (value : Value)
  : result Value :=
  match fields with
  | [] => Ok value
  | v :: fields' =>
      value' <~ _ExpandValue_step default value v ;;
      _ExpandValue_loop default fields' value'
  end.

(** [_ExpandValue]. *)
Definition _ExpandValue (var : string) (default : Value) : result Value :=
  if String.eqb var "_key" then Ok (VStr name)
  else if String.eqb var "_this" then Ok params
  else
    let value := if startswith var "_" then VDict specials else params in
    _ExpandValue_loop default (split "." var) value.

Variable C : Collaborators.

(** The escaper dispatch of [_ExpandVariable].  The [pprint] branch
    calls [cgi.escape], and [gtl.py] never imports [cgi]: evaluating
    the name raises before [pprint.pformat] is reached. *)
Definition apply_escaper (escaper_name : option string) (value : Value)
  : result Value :=
  match escaper_name with
  | Some e =>
      if String.eqb e "text" then Ok (VStr (html_escape (str value)))
      else if String.eqb e "html"
      then s <~ SanitizeHtml C (str value) ;; Ok (VStr s)
      else if String.eqb e "pprint" then Raise NameError
      else Ok value
  | None => Ok value
  end.

(** [_ExpandVariable], with its [default=''] . *)
Definition _ExpandVariable (var : string) : result Value :=
  let default := VStr EmptyString in
  if startswith var "#" then Ok (VStr EmptyString)
  else
    let inverted := startswith var "!" in
    let var := if inverted then slice_from var 1 else var in
    ve <~ (if (0 <=? find var ":" 0)%Z
           then p <~ unpack2 (split1 ":" var) ;; Ok (fst p, Some (snd p))
           else Ok (var, None)) ;;
    let '(var, escaper_name) := ve in
    value <~ _ExpandValue var default ;;
    let value := if inverted then VBool (negb (truthy value)) else value in
    value <~ apply_escaper escaper_name value ;;
    Ok (match value with VNone => VStr EmptyString | _ => value end).

(** The loop of [_ExpandVariables].  [bound] is at least the length of
    [rest]; every turn drops the two markers at least, so the loop ends
    on [rest] being empty or holding no tag. *)
Fixpoint _ExpandVariables_loop (bound : nat) (result : list string) (rest : string)
  : Py.result string :=
  match bound with
  | O => Ok (concat result ++ rest)
  | S bound' =>
      if String.eqb rest EmptyString then Ok (concat result ++ rest)
      else match _FindTag rest VAR_OPEN VAR_CLOSE with
           | None => Ok (concat result ++ rest)
           | Some (tag, before_tag, after_tag) =>
               v <~ _ExpandVariable tag ;;
               _ExpandVariables_loop bound'
                 (result ++ [slice_to rest before_tag; str v])
                 (slice_from rest after_tag)
           end
  end.

(** [_ExpandVariables]. *)
Definition _ExpandVariables (template : string) : Py.result string :=
  _ExpandVariables_loop (String.length template) [] template.

End Resolver.

Section Blocks.

Variable C : Collaborators.

(** The recursive call to [ExpandTemplate] made for the content of a
    block: [ExpandTemplate] at one unit of fuel less. *)
Variable expand :
  string -> list (string * Value) -> Value -> string -> M string.

(** [result = []; for x in xs: result.append(body(x))]. *)
Fixpoint for_append {A} (xs : list A) (body : A -> M string) (result : list string)
  : M (list string) :=
  match xs with
  | [] => ret result
  | x :: xs' => r <- body x ;; for_append xs' body (result ++ [r])
  end.

(** [_ExpandInclude].  [f] is [None] until [gruyere._Open] has returned;
    the [finally] clause closes it whenever it is set, on each of the
    three ways out of the [try]: normally, through the [except IOError]
    handler, or with another exception passing through. *)
Definition _ExpandInclude (_ : string) (filename template : string)
           (specials : list (string * Value)) (params : Value) (name : string)
  : M string :=
  let fname := os_sep C ++ replace "/" (os_sep C) filename in
  result <-
    match gruyere_Open C (RESOURCE_PATH C) fname with
    | Ok f =>
        emit (EvOpen f) ;;;
        match file_read C f with
        | Ok text => emit (EvClose f) ;;; ret text
        | Raise IOError =>
            _Log ("Error: missing filename: " ++ filename) ;;;
            emit (EvClose f) ;;; ret template
        | Raise e => emit (EvClose f) ;;; raise e
        end
    | Raise IOError =>
        _Log ("Error: missing filename: " ++ filename) ;;; ret template
    | Raise e => raise e
    end ;;
  expand result specials params name.

(** [_ExpandFor]. *)
Definition _ExpandFor (tag template : string)
           (specials : list (string * Value)) (block_data : Value)
  : M string :=
  if isMapping block_data then
    result <- for_append
                (match block_data with VDict kvs => map fst kvs | _ => [] end)
                (fun v => item <- lift (getitem_key block_data v) ;;
                          expand template specials item v) [] ;;
    ret (concat result)
  else if isSequence block_data then
    result <- for_append
                (seq 0 (Z.to_nat (length_of block_data)))
                (fun i => item <- lift (getitem_int block_data (Z.of_nat i)) ;;
                          expand template specials item (str_of_nat i)) [] ;;
    ret (concat result)
  else
    _Log ("Error: Invalid type: " ++ tag) ;;; ret EmptyString.

(** [_ExpandBlock]. *)
Definition _ExpandBlock (tag template : string)
           (specials : list (string * Value)) (params : Value) (name : string)
  : M string :=
  p <- lift (unpack2 (split1 ":" tag)) ;;
  let '(tag_type, block_var) := p in
  if String.eqb tag_type INCLUDE_TAG then
    _ExpandInclude tag block_var template specials params name
  else if String.eqb tag_type IF_TAG then
    block_data <- lift (_ExpandVariable specials params name C block_var) ;;
    if truthy block_data then expand template specials params name
    else ret EmptyString
  else if String.eqb tag_type FOR_TAG then
    block_data <- lift (_ExpandVariable specials params name C block_var) ;;
    _ExpandFor tag template specials block_data
  else
    _Log ("Error: Invalid block: " ++ tag) ;;; ret EmptyString.

(** The loop of [_ExpandBlocks].  [bound] is at least the length of
    [rest]; every turn drops an open and a close tag at least. *)
Fixpoint _ExpandBlocks_loop (bound : nat)
         (specials : list (string * Value)) (params : Value) (name : string)
         (result : list string) (rest : string) : M string :=
  match bound with
  | O => ret (concat result ++ rest)
  | S bound' =>
      if String.eqb rest EmptyString then ret (concat result ++ rest)
      else match _FindTag rest BLOCK_OPEN BLOCK_CLOSE with
           | None => ret (concat result ++ rest)
           | Some (tag, before_tag, after_tag) =>
               let end_tag := END_BLOCK_OPEN ++ tag ++ BLOCK_CLOSE in
               let before_end := find rest end_tag after_tag in
               if (before_end <? 0)%Z then ret (concat result ++ rest)
               else
                 let after_end := (before_end + len end_tag)%Z in
                 let block := slice rest after_tag before_end in
                 b <- _ExpandBlock tag block specials params name ;;
                 _ExpandBlocks_loop bound' specials params name
                   (result ++ [slice_to rest before_tag; b])
                   (slice_from rest after_end)
           end
  end.

(** [_ExpandBlocks]. *)
Definition _ExpandBlocks (template : string)
           (specials : list (string * Value)) (params : Value) (name : string)
  : M string :=
  _ExpandBlocks_loop (String.length template) specials params name [] template.

End Blocks.

(** [ExpandTemplate].  [fuel] bounds the depth of the recursion through
    block bodies and included resources; [str(template)] is the template
    itself, a string. *)
Fixpoint ExpandTemplate (C : Collaborators) (fuel : nat) (template : string)
         (specials : list (string * Value)) (params : Value) (name : string)
  : M string :=
  match fuel with
  | O => out_of_fuel
  | S fuel' =>
      t <- _ExpandBlocks C (ExpandTemplate C fuel') template specials params name ;;
      lift (_ExpandVariables specials params name C t)
  end.

(** [_Cond]: the conditional expression of older Pythons, on the truth
    value of [test]; nothing in [gtl.py] calls it. *)
Definition _Cond {A} (test : Value) (if_true if_false : A) : A :=
  if truthy test then if_true else if_false.

(** ** A concrete setting for the examples: no resource can be opened,
    the sanitizer is the identity. *)
Definition no_files : Collaborators := {|
  RESOURCE_PATH := "resources";
  gruyere_Open := fun _ _ => Raise IOError;
  file_read := fun _ => Raise IOError;
  os_sep := "/";
  SanitizeHtml := fun s => Ok s
|}.


(** ** Templates written as text, block, text

    [first_block pre tag body] holds when a template written
    [pre ++ "[[" ++ tag ++ "]]" ++ body ++ "[[/" ++ tag ++ "]]" ++ post]
    is read by the scanner the way it is written: no open marker starts
    before the one that follows [pre], no close marker starts before the
    one that follows [tag], and no close tag starts before the one that
    follows [body]. *)
Definition no_occurrence (sub s : string) : bool :=
  match find_nat sub s with
  | None => true
  | Some _ => false
  end.

Definition first_block (pre tag body : string) : bool :=
  no_occurrence BLOCK_OPEN (pre ++ "[")
  && no_occurrence BLOCK_CLOSE (tag ++ "]")
  && no_occurrence (END_BLOCK_OPEN ++ tag ++ BLOCK_CLOSE)
                   (body ++ END_BLOCK_OPEN ++ tag ++ "]").

Definition block_text (tag body : string) : string :=
  BLOCK_OPEN ++ tag ++ BLOCK_CLOSE ++ body ++ END_BLOCK_OPEN ++ tag ++ BLOCK_CLOSE.

(** ** Reading a trace *)

(** In-order monadic map: what a comprehension over [l] would compute. *)
Fixpoint mapM {A B} (f : A -> M B) (l : list A) : M (list B) :=
  match l with
  | [] => ret []
  | x :: l' => y <- f x ;; ys <- mapM f l' ;; ret (y :: ys)
  end.

Fixpoint remove_one (f : nat) (l : list nat) : list nat :=
  match l with
  | [] => []
  | g :: l' => if Nat.eqb f g then l' else g :: remove_one f l'
  end.

(** The handles that a trace has opened and not closed, starting from
    the handles [opened] before it. *)
Definition track (opened : list nat) (ev : event) : list nat :=
  match ev with
  | EvOpen f => f :: opened
  | EvClose f => remove_one f opened
  | EvLog _ => opened
  end.

Definition open_handles (tr : list event) : list nat := fold_left track tr [].

(** A trace is balanced when it closes the handles it opens, whatever
    was open before it. *)
Definition balanced (tr : list event) : Prop :=
  forall opened, fold_left track tr opened = opened.

(** A second concrete setting: the resource "/menu.gtl" opens as handle 3
    and reads as a template, "/broken.gtl" opens as handle 4 and cannot be
    read, nothing else opens. *)
Definition two_files : Collaborators := {|
  RESOURCE_PATH := "resources";
  gruyere_Open := fun _ filename =>
    if String.eqb filename "/menu.gtl" then Ok 3
    else if String.eqb filename "/broken.gtl" then Ok 4
    else Raise IOError;
  file_read := fun f => if Nat.eqb f 3 then Ok "<{{user}}>" else Raise IOError;
  os_sep := "/";
  SanitizeHtml := fun s => Ok s
|}.

(** ** Reading the fuel *)

(** [refines m1 m2]: [m2] is what [m1] is once the recursion has room:
    either [m1] was cut short, or the two are the same. *)
Definition refines {A} (m1 m2 : M A) : Prop := snd m1 = None \/ m1 = m2.

(** [terminates m]: the computation was not cut short; it returned or
    raised. *)
Definition terminates {A} (m : M A) : Prop := snd m <> None.

(** ** Reading a sequence *)

(** The items that [for i in range(len(v)): v[i]] meets: the elements of
    a list, the one-character strings of a string. *)
Definition items_of (v : Value) : list Value :=
  match v with
  | VList l => l
  | VStr s => map (fun c => VStr (String c EmptyString)) (list_ascii_of_string s)
  | _ => []
  end.

(** Each item with its index, from 0. *)
Definition enumerate {A} (l : list A) : list (nat * A) :=
  combine (seq 0 (List.length l)) l.

(** A third concrete setting: the one resource, "/loop.gtl", opens as
    handle 1 and holds a template that includes it again. *)
Definition loop_file : Collaborators := {|
  RESOURCE_PATH := "resources";
  gruyere_Open := fun _ filename =>
    if String.eqb filename "/loop.gtl" then Ok 1 else Raise IOError;
  file_read := fun _ => Ok "again [[include:loop.gtl]]x[[/include:loop.gtl]]";
  os_sep := "/";
  SanitizeHtml := fun s => Ok s
|}.

(** * Properties *)

(** ** Strings: concatenation, [take], [drop] *)

Lemma append_assoc (a b c : string) : (a ++ b) ++ c = a ++ (b ++ c).
Proof.
  induction a as [|x a IH]; simpl; [reflexivity | now rewrite IH].
Qed.

Lemma append_empty_r (a : string) : a ++ EmptyString = a.
Proof.
  induction a as [|x a IH]; simpl; [reflexivity | now rewrite IH].
Qed.

Lemma length_append (a b : string) :
  String.length (a ++ b) = String.length a + String.length b.
Proof.
  induction a as [|x a IH]; simpl; [reflexivity | now rewrite IH].
Qed.

Lemma drop_append (a b : string) : drop (String.length a) (a ++ b) = b.
Proof.
  induction a as [|x a IH]; simpl; [now destruct b | exact IH].
Qed.

Lemma take_append (a b : string) : take (String.length a) (a ++ b) = a.
Proof.
  induction a as [|x a IH]; simpl; [now destruct b | now rewrite IH].
Qed.

Lemma take_all (a : string) : take (String.length a) a = a.
Proof.
  rewrite <- (append_empty_r a) at 2. apply take_append.
Qed.

Lemma drop_zero (s : string) : drop 0 s = s.
Proof. now destruct s. Qed.

Lemma length_drop (n : nat) (s : string) :
  String.length (drop n s) = String.length s - n.
Proof.
  revert s; induction n as [|n IH]; intros [|c s]; simpl; auto.
Qed.

Lemma concat_snoc2 (l : list string) (a b : string) :
  concat (l ++ [a; b]) = concat l ++ a ++ b.
Proof.
  unfold concat. induction l as [|x l IH]; simpl.
  - now rewrite append_empty_r.
  - now rewrite IH, append_assoc.
Qed.

Lemma concat_snoc (l : list string) (a : string) :
  concat (l ++ [a]) = concat l ++ a.
Proof.
  unfold concat. induction l as [|x l IH]; simpl.
  - now rewrite append_empty_r.
  - now rewrite IH, append_assoc.
Qed.

(** ** Strings: prefixes and first occurrences *)

Lemma prefix_append (a b : string) : String.prefix a (a ++ b) = true.
Proof.
  induction a as [|x a IH]; simpl; [now destruct b |].
  destruct (ascii_dec x x); [exact IH | contradiction].
Qed.

(** A prefix test only looks at as many characters as the pattern has. *)
Lemma prefix_append_le (a x y : string) :
  String.length a <= String.length x ->
  String.prefix a (x ++ y) = String.prefix a x.
Proof.
  revert x; induction a as [|c a IH]; intros [|d x] H; simpl in *;
    try reflexivity; try lia.
  - now destruct y.
  - destruct (ascii_dec c d); [apply IH; lia | reflexivity].
Qed.

Lemma find_nat_cons_None (sub : string) (c : ascii) (s : string) :
  find_nat sub (String c s) = None ->
  String.prefix sub (String c s) = false /\ find_nat sub s = None.
Proof.
  cbn [find_nat].
  destruct (String.prefix sub (String c s)); [discriminate |].
  destruct (find_nat sub s); [discriminate | auto].
Qed.

(** The occurrence of [init ++ c] that follows [pre] is the first one as
    soon as none starts inside [pre]. *)
Lemma find_nat_first (init : string) (c : ascii) (pre post : string) :
  find_nat (init ++ String c EmptyString) (pre ++ init) = None ->
  find_nat (init ++ String c EmptyString)
           (pre ++ (init ++ String c EmptyString) ++ post)
  = Some (String.length pre).
Proof.
  set (sub := init ++ String c EmptyString).
  induction pre as [|x pre IH]; intros H.
  - cbn [append String.length].
    destruct (sub ++ post) eqn:E; cbn [find_nat]; rewrite <- E;
      now rewrite prefix_append.
  - cbn [append] in H. apply find_nat_cons_None in H as [Hp Hn].
    cbn [append String.length find_nat].
    replace (String x (pre ++ sub ++ post))
      with ((String x (pre ++ init)) ++ String c post).
    + rewrite prefix_append_le, Hp.
      * now rewrite (IH Hn).
      * unfold sub. cbn [String.length]. rewrite !length_append.
        cbn [String.length]. lia.
    + unfold sub. cbn [append]. now rewrite !append_assoc.
Qed.

(** An occurrence that is there is found, at or before its position. *)
Lemma find_nat_found (sub pre post : string) :
  exists i, find_nat sub (pre ++ sub ++ post) = Some i /\ i <= String.length pre.
Proof.
  induction pre as [|x pre (i & Hi & Hle)].
  - exists 0. split; [| apply le_n]. cbn [append].
    destruct (sub ++ post) eqn:E; cbn [find_nat]; rewrite <- E;
      now rewrite prefix_append.
  - cbn [append find_nat String.length].
    destruct (String.prefix sub (String x (pre ++ sub ++ post))).
    + exists 0. split; [reflexivity | lia].
    + exists (S i). rewrite Hi. split; [reflexivity | lia].
Qed.

Lemma find_nat_bound (sub s : string) (i : nat) :
  find_nat sub s = Some i -> i <= String.length s.
Proof.
  revert i; induction s as [|c s IH]; intros i; cbn [find_nat].
  - destruct (String.prefix sub EmptyString); [| discriminate].
    intros [= <-]. apply le_n.
  - destruct (String.prefix sub (String c s)).
    + intros [= <-]. apply Nat.le_0_l.
    + destruct (find_nat sub s) as [j|]; [| discriminate].
      intros [= <-]. cbn [String.length]. specialize (IH j eq_refl). lia.
Qed.

Lemma prefix_length (a s : string) :
  String.prefix a s = true -> String.length a <= String.length s.
Proof.
  revert s; induction a as [|c a IH]; intros [|d s]; simpl;
    try discriminate; try lia.
  destruct (ascii_dec c d); [| discriminate].
  intros H. apply IH in H. lia.
Qed.

(** Where an occurrence is found there is room for it. *)
Lemma find_nat_room (sub s : string) (i : nat) :
  find_nat sub s = Some i -> i + String.length sub <= String.length s.
Proof.
  revert i; induction s as [|c s IH]; intros i; cbn [find_nat].
  - destruct (String.prefix sub EmptyString) eqn:E; [| discriminate].
    intros [= <-]. apply prefix_length in E. exact E.
  - destruct (String.prefix sub (String c s)) eqn:E.
    + intros [= <-]. apply prefix_length in E. exact E.
    + destruct (find_nat sub s) as [j|]; [| discriminate].
      intros [= <-]. cbn [String.length]. specialize (IH j eq_refl). lia.
Qed.

Lemma take_drop (n : nat) (s : string) : take n s ++ drop n s = s.
Proof.
  revert s; induction n as [|n IH]; intros [|c s]; simpl; auto.
  now rewrite IH.
Qed.

Lemma length_take (n : nat) (s : string) :
  n <= String.length s -> String.length (take n s) = n.
Proof.
  revert s; induction n as [|n IH]; intros [|c s]; simpl; auto; try lia.
  intros H. rewrite IH; lia.
Qed.

Lemma drop_drop (n m : nat) (s : string) : drop n (drop m s) = drop (m + n) s.
Proof.
  revert s; induction m as [|m IH]; intros s; [now rewrite drop_zero |].
  destruct s as [|c s]; [now destruct n | apply IH].
Qed.

(** ** [find] and slices on a string cut in two *)

Lemma len_nonneg (s : string) : (0 <= len s)%Z.
Proof. unfold len. lia. Qed.

Lemma len_append (a b : string) : len (a ++ b) = (len a + len b)%Z.
Proof. unfold len. rewrite length_append. lia. Qed.

Lemma find_from (a b sub : string) :
  find (a ++ b) sub (len a)
  = match find_nat sub b with
    | Some i => (len a + Z.of_nat i)%Z
    | None => (-1)%Z
    end.
Proof.
  unfold find. pose proof (len_nonneg a) as Ha. pose proof (len_nonneg b) as Hb.
  destruct (Z.ltb_spec (len a) 0); [lia |].
  rewrite len_append.
  destruct (Z.ltb_spec (len a + len b) (len a)); [lia |].
  unfold len at 1. rewrite Nat2Z.id, drop_append. reflexivity.
Qed.

Lemma find_from_start (s sub : string) :
  find s sub 0
  = match find_nat sub s with Some i => Z.of_nat i | None => (-1)%Z end.
Proof.
  exact (find_from EmptyString s sub).
Qed.

Lemma clip_inside (n i : Z) : (0 <= i <= n)%Z -> clip n i = i.
Proof.
  intros H. unfold clip. destruct (Z.ltb_spec i 0); lia.
Qed.

Lemma slice_to_append (a b : string) : slice_to (a ++ b) (len a) = a.
Proof.
  unfold slice_to. rewrite clip_inside.
  - unfold len. rewrite Nat2Z.id. apply take_append.
  - rewrite len_append. pose proof (len_nonneg a). pose proof (len_nonneg b). lia.
Qed.

Lemma slice_from_append (a b : string) : slice_from (a ++ b) (len a) = b.
Proof.
  unfold slice_from. rewrite clip_inside.
  - unfold len. rewrite Nat2Z.id. apply drop_append.
  - rewrite len_append. pose proof (len_nonneg a). pose proof (len_nonneg b). lia.
Qed.

Lemma slice_middle (a b c : string) :
  slice (a ++ b ++ c) (len a) (len a + len b) = b.
Proof.
  unfold slice.
  pose proof (len_nonneg a). pose proof (len_nonneg b). pose proof (len_nonneg c).
  rewrite !clip_inside by (rewrite !len_append; lia).
  replace (len a + len b - len a)%Z with (len b) by lia.
  unfold len. rewrite !Nat2Z.id, drop_append. apply take_append.
Qed.

Lemma slice_after (a t : string) (i : nat) :
  i <= String.length t ->
  slice (a ++ t) (len a) (len a + Z.of_nat i) = take i t.
Proof.
  intros Hi.
  rewrite <- (take_drop i t) at 1.
  replace (Z.of_nat i) with (len (take i t))
    by (unfold len; now rewrite length_take).
  apply slice_middle.
Qed.

Lemma slice_from_after (a t : string) (k : nat) :
  k <= String.length t ->
  slice_from (a ++ t) (len a + Z.of_nat k) = drop k t.
Proof.
  intros Hk.
  rewrite <- (take_drop k t) at 1. rewrite <- append_assoc.
  replace (len a + Z.of_nat k)%Z with (len (a ++ take k t))
    by (rewrite len_append; unfold len; now rewrite length_take).
  apply slice_from_append.
Qed.

(** A slice that starts at or after the end of a non-empty string's first
    character is shorter than the string. *)
Lemma length_slice_from (s : string) (k : Z) :
  (0 < k)%Z -> s <> EmptyString ->
  String.length (slice_from s k) < String.length s.
Proof.
  intros Hk Hs. unfold slice_from. rewrite length_drop.
  assert (0 < String.length s) by (destruct s; [contradiction | simpl; lia]).
  unfold clip, len. destruct (Z.ltb_spec k 0); lia.
Qed.

(** ** [_FindTag] *)

(** What [_FindTag] returns lies inside the template, the end after the
    start, and past the close marker. *)
Lemma _FindTag_bounds (template o c tag : string) (before after : Z) :
  _FindTag template o c = Some (tag, before, after) ->
  (0 <= before /\ len c <= after)%Z.
Proof.
  unfold _FindTag.
  destruct (Z.ltb_spec (find template o 0) 0); [discriminate |].
  destruct (Z.ltb_spec (find template c (find template o 0)) 0);
    [discriminate |].
  destruct (Z.ltb_spec (find template c (find template o 0)) (find template o 0));
    [discriminate |].
  cbn [orb]. intros [= _ <- <-]. lia.
Qed.

(** The tag that [_FindTag] returns for a template that is written
    [pre ++ open ++ tag ++ close ++ post]. *)
Lemma _FindTag_at (oi ci : string) (ol cl : ascii) (pre tag post : string) :
  find_nat (oi ++ String ol EmptyString) (pre ++ oi) = None ->
  find_nat (ci ++ String cl EmptyString)
           ((oi ++ String ol EmptyString) ++ tag ++ ci) = None ->
  _FindTag (pre ++ (oi ++ String ol EmptyString) ++ tag
                ++ (ci ++ String cl EmptyString) ++ post)
           (oi ++ String ol EmptyString) (ci ++ String cl EmptyString)
  = Some (tag, len pre,
          (len pre + len (oi ++ String ol EmptyString) + len tag
           + len (ci ++ String cl EmptyString))%Z).
Proof.
  set (om := oi ++ String ol EmptyString). set (cm := ci ++ String cl EmptyString).
  intros Ho Hc.
  set (T := pre ++ om ++ tag ++ cm ++ post).
  assert (E1 : find T om 0 = len pre).
  { rewrite find_from_start. unfold T, om.
    now rewrite (find_nat_first oi ol pre _ Ho). }
  assert (E2 : find T cm (len pre) = (len pre + (len om + len tag))%Z).
  { unfold T. rewrite find_from.
    replace (om ++ tag ++ cm ++ post) with ((om ++ tag) ++ cm ++ post)
      by now rewrite append_assoc.
    unfold cm.
    rewrite (find_nat_first ci cl (om ++ tag) post)
      by (now rewrite append_assoc).
    fold (len (om ++ tag)). now rewrite len_append. }
  unfold _FindTag. rewrite E1, E2.
  pose proof (len_nonneg pre). pose proof (len_nonneg om).
  pose proof (len_nonneg tag). pose proof (len_nonneg cm).
  destruct (Z.ltb_spec (len pre) 0); [lia |].
  destruct (Z.ltb_spec (len pre + (len om + len tag)) 0); [lia |].
  destruct (Z.ltb_spec (len pre + (len om + len tag)) (len pre)); [lia |].
  cbn [orb]. f_equal. f_equal; [f_equal |]; [| lia].
  unfold T.
  replace (pre ++ om ++ tag ++ cm ++ post)
    with ((pre ++ om) ++ tag ++ cm ++ post)
    by now rewrite !append_assoc.
  replace (len pre + len om)%Z with (len (pre ++ om)) by apply len_append.
  replace (len pre + (len om + len tag))%Z with (len (pre ++ om) + len tag)%Z
    by (rewrite len_append; lia).
  apply slice_middle.
Qed.

(** ** The monad of the block pass *)

Lemma bind_ret_l {A B} (a : A) (k : A -> M B) : bind (ret a) k = k a.
Proof. unfold bind, ret. now destruct (k a). Qed.

Lemma bind_ret_r {A} (m : M A) : bind m ret = m.
Proof.
  destruct m as [tr [[a|e]|]]; cbn; try reflexivity. now rewrite app_nil_r.
Qed.

Lemma bind_assoc {A B D} (m : M A) (k : A -> M B) (h : B -> M D) :
  bind (bind m k) h = bind m (fun a => bind (k a) h).
Proof.
  destruct m as [tr [[a|e]|]]; cbn; try reflexivity.
  destruct (k a) as [tr' [[b|e]|]]; cbn; try reflexivity.
  destruct (h b) as [tr'' r]. now rewrite app_assoc.
Qed.

Lemma bind_ext {A B} (m : M A) (k k' : A -> M B) :
  (forall a, k a = k' a) -> bind m k = bind m k'.
Proof.
  intros H. destruct m as [tr [[a|e]|]]; cbn; try reflexivity. now rewrite H.
Qed.

Lemma bind_raise {A B} (e : exn) (k : A -> M B) : bind (raise e) k = raise e.
Proof. reflexivity. Qed.

(** ** The loops end by themselves *)

Section Loops.

Variable C : Collaborators.
Variable expand :
  string -> list (string * Value) -> Value -> string -> M string.
Variable specials : list (string * Value).
Variable params : Value.
Variable name : string.

(** Any bound that is at least the length of [rest] gives the same
    result: the bound never ends the loop of [_ExpandBlocks]. *)
Lemma _ExpandBlocks_loop_bound (b1 : nat) :
  forall (b2 : nat) (result : list string) (rest : string),
    String.length rest <= b1 -> String.length rest <= b2 ->
    _ExpandBlocks_loop C expand b1 specials params name result rest
    = _ExpandBlocks_loop C expand b2 specials params name result rest.
Proof.
  induction b1 as [|b1 IH]; intros b2 result rest H1 H2.
  - destruct rest; [| simpl in H1; lia]. now destruct b2.
  - destruct b2 as [|b2].
    + destruct rest; [| simpl in H2; lia]. reflexivity.
    + cbn [_ExpandBlocks_loop].
      destruct (String.eqb_spec rest EmptyString) as [|Hne]; [reflexivity |].
      destruct (_FindTag rest BLOCK_OPEN BLOCK_CLOSE) as [[[tag bt] at_]|] eqn:Ef;
        [| reflexivity].
      apply _FindTag_bounds in Ef as [Hb Ha].
      set (end_tag := END_BLOCK_OPEN ++ tag ++ BLOCK_CLOSE).
      destruct (Z.ltb_spec (find rest end_tag at_) 0) as [|Hfe]; [reflexivity |].
      apply bind_ext. intros b.
      assert (String.length (slice_from rest (find rest end_tag at_ + len end_tag))
              < String.length rest).
      { apply length_slice_from; [| exact Hne].
        assert (3 <= len end_tag)%Z; [| lia].
        pose proof (len_nonneg (tag ++ BLOCK_CLOSE)).
        unfold end_tag, END_BLOCK_OPEN. rewrite len_append.
        change (len "[[/") with 3%Z. lia. }
      apply IH; lia.
Qed.

(** What the loop has collected so far is a prefix of its result. *)
Lemma _ExpandBlocks_loop_result (bound : nat) :
  forall (result : list string) (rest : string),
    _ExpandBlocks_loop C expand bound specials params name result rest
    = (s <- _ExpandBlocks_loop C expand bound specials params name [] rest ;;
       ret (concat result ++ s)).
Proof.
  induction bound as [|bound IH]; intros result rest.
  - cbn [_ExpandBlocks_loop]. now rewrite bind_ret_l.
  - cbn [_ExpandBlocks_loop].
    destruct (String.eqb rest EmptyString); [now rewrite bind_ret_l |].
    destruct (_FindTag rest BLOCK_OPEN BLOCK_CLOSE) as [[[tag bt] at_]|];
      [| now rewrite bind_ret_l].
    destruct (find rest (END_BLOCK_OPEN ++ tag ++ BLOCK_CLOSE) at_ <? 0)%Z;
      [now rewrite bind_ret_l |].
    rewrite bind_assoc. apply bind_ext. intros b.
    rewrite IH. rewrite (IH ([] ++ _)%list).
    rewrite bind_assoc. apply bind_ext. intros s.
    rewrite bind_ret_l. rewrite concat_snoc2. cbn [app concat fold_right].
    now rewrite append_empty_r, !append_assoc.
Qed.

(** The same two facts for the loop of [_ExpandVariables]. *)
Lemma _ExpandVariables_loop_bound (b1 : nat) :
  forall (b2 : nat) (result : list string) (rest : string),
    String.length rest <= b1 -> String.length rest <= b2 ->
    _ExpandVariables_loop specials params name C b1 result rest
    = _ExpandVariables_loop specials params name C b2 result rest.
Proof.
  induction b1 as [|b1 IH]; intros b2 result rest H1 H2.
  - destruct rest; [| simpl in H1; lia]. now destruct b2.
  - destruct b2 as [|b2].
    + destruct rest; [| simpl in H2; lia]. reflexivity.
    + cbn [_ExpandVariables_loop].
      destruct (String.eqb_spec rest EmptyString) as [|Hne]; [reflexivity |].
      destruct (_FindTag rest VAR_OPEN VAR_CLOSE) as [[[tag bt] at_]|] eqn:Ef;
        [| reflexivity].
      apply _FindTag_bounds in Ef as [Hb Ha]. change (len VAR_CLOSE) with 2%Z in Ha.
      destruct (_ExpandVariable specials params name C tag) as [v|e];
        [| reflexivity].
      cbn [bindR].
      assert (String.length (slice_from rest at_) < String.length rest)
        by (apply length_slice_from; [lia | exact Hne]).
      apply IH; lia.
Qed.

Lemma _ExpandVariables_loop_result (bound : nat) :
  forall (result : list string) (rest : string),
    _ExpandVariables_loop specials params name C bound result rest
    = (s <~ _ExpandVariables_loop specials params name C bound [] rest ;;
       Ok (concat result ++ s)).
Proof.
  induction bound as [|bound IH]; intros result rest.
  - reflexivity.
  - cbn [_ExpandVariables_loop].
    destruct (String.eqb rest EmptyString); [reflexivity |].
    destruct (_FindTag rest VAR_OPEN VAR_CLOSE) as [[[tag bt] at_]|];
      [| reflexivity].
    destruct (_ExpandVariable specials params name C tag) as [v|e];
      [| reflexivity].
    cbn [bindR]. rewrite IH. rewrite (IH ([] ++ _)%list).
    destruct (_ExpandVariables_loop specials params name C bound [] _)
      as [s|e]; [| reflexivity].
    cbn [bindR]. rewrite concat_snoc2. cbn [app concat fold_right].
    now rewrite append_empty_r, !append_assoc.
Qed.

End Loops.

(** ** One turn of the block pass on a template written as text, block, text *)

Lemma no_occurrence_true (sub s : string) :
  no_occurrence sub s = true -> find_nat sub s = None.
Proof.
  unfold no_occurrence. now destruct (find_nat sub s).
Qed.

Section BlockStep.

Variable C : Collaborators.
Variable expand :
  string -> list (string * Value) -> Value -> string -> M string.
Variable specials : list (string * Value).
Variable params : Value.
Variable name : string.

Lemma end_tag_split (tag : string) :
  END_BLOCK_OPEN ++ tag ++ BLOCK_CLOSE
  = (END_BLOCK_OPEN ++ tag ++ "]") ++ String "]" EmptyString.
Proof.
  unfold END_BLOCK_OPEN, BLOCK_CLOSE. now rewrite !append_assoc.
Qed.

(** The scanner finds the open tag where it is written. *)
Lemma _FindTag_block (pre tag tail : string) :
  no_occurrence BLOCK_OPEN (pre ++ "[") = true ->
  no_occurrence BLOCK_CLOSE (tag ++ "]") = true ->
  _FindTag (pre ++ BLOCK_OPEN ++ tag ++ BLOCK_CLOSE ++ tail) BLOCK_OPEN BLOCK_CLOSE
  = Some (tag, len pre, len (pre ++ BLOCK_OPEN ++ tag ++ BLOCK_CLOSE)).
Proof.
  intros Ho Hc. apply no_occurrence_true in Ho, Hc.
  pose proof (_FindTag_at "[" "]" "[" "]" pre tag tail Ho) as H.
  cbn [append] in H. cbn [BLOCK_OPEN BLOCK_CLOSE append].
  unfold BLOCK_OPEN, BLOCK_CLOSE. cbn [append].
  rewrite H.
  - f_equal. f_equal. rewrite !len_append.
    change (String "[" (String "[" (tag ++ "]]")))
      with ("[[" ++ tag ++ "]]").
    rewrite !len_append. lia.
  - cbn [find_nat String.prefix]. 
    destruct (ascii_dec "]" "["); [discriminate |].
    destruct tag; cbn [append String.prefix];
      (destruct (ascii_dec "]" "["); [discriminate |]);
      unfold BLOCK_CLOSE in Hc; cbn [append] in Hc; now rewrite Hc.
Qed.

(** One turn of the loop on a template whose first tag is [tag]: with
    no close tag after it the template is returned as it is; otherwise
    the block up to the first close tag is expanded and spliced between
    the text before it and the expansion of what follows it. *)
Lemma _ExpandBlocks_open_tag (pre tag tail : string) :
  no_occurrence BLOCK_OPEN (pre ++ "[") = true ->
  no_occurrence BLOCK_CLOSE (tag ++ "]") = true ->
  _ExpandBlocks C expand (pre ++ BLOCK_OPEN ++ tag ++ BLOCK_CLOSE ++ tail)
                specials params name
  = match find_nat (END_BLOCK_OPEN ++ tag ++ BLOCK_CLOSE) tail with
    | None => ret (pre ++ BLOCK_OPEN ++ tag ++ BLOCK_CLOSE ++ tail)
    | Some i =>
        b <- _ExpandBlock C expand tag (take i tail) specials params name ;;
        r <- _ExpandBlocks C expand
               (drop (i + String.length (END_BLOCK_OPEN ++ tag ++ BLOCK_CLOSE)) tail)
               specials params name ;;
        ret (pre ++ b ++ r)
    end.
Proof.
  intros Ho Hc.
  set (end_tag := END_BLOCK_OPEN ++ tag ++ BLOCK_CLOSE) in *.
  set (head := pre ++ BLOCK_OPEN ++ tag ++ BLOCK_CLOSE).
  set (T := pre ++ BLOCK_OPEN ++ tag ++ BLOCK_CLOSE ++ tail).
  assert (ET : T = head ++ tail).
  { unfold T, head. now rewrite !append_assoc. }
  unfold _ExpandBlocks.
  assert (Hlen : String.length tail < String.length T).
  { rewrite ET. unfold head, BLOCK_OPEN. rewrite !length_append.
    cbn [String.length]. lia. }
  destruct (String.length T) as [|n] eqn:En; [lia |].
  cbn [_ExpandBlocks_loop].
  destruct (String.eqb_spec T EmptyString) as [E0|_];
    [rewrite E0 in En; discriminate |].
  unfold T at 1. rewrite (_FindTag_block pre tag _ Ho Hc).
  fold head. fold end_tag.
  assert (Ef : find T end_tag (len head)
               = match find_nat end_tag tail with
                 | Some i => (len head + Z.of_nat i)%Z
                 | None => (-1)%Z
                 end)
    by (rewrite ET; apply find_from).
  rewrite Ef. clear Ef.
  destruct (find_nat end_tag tail) as [i|] eqn:Ei.
  - pose proof (find_nat_room _ _ _ Ei) as Hroom.
    pose proof (len_nonneg head).
    destruct (Z.ltb_spec (len head + Z.of_nat i) 0); [lia |].
    replace (slice T (len head) (len head + Z.of_nat i)) with (take i tail)
      by (rewrite ET; symmetry; apply slice_after; lia).
    apply bind_ext. intros b.
    replace (slice_to T (len pre)) with pre
      by (unfold T; symmetry; apply slice_to_append).
    replace (slice_from T (len head + Z.of_nat i + len end_tag))
      with (drop (i + String.length end_tag) tail).
    + rewrite (_ExpandBlocks_loop_bound _ _ _ _ _ n
                 (String.length (drop (i + String.length end_tag) tail)))
        by (rewrite ?length_drop; lia).
      rewrite _ExpandBlocks_loop_result. apply bind_ext. intros r.
      cbn [app concat fold_right]. now rewrite append_empty_r, append_assoc.
    + rewrite ET.
      replace (len head + Z.of_nat i + len end_tag)%Z
        with (len head + Z.of_nat (i + String.length end_tag))%Z
        by (unfold len; lia).
      symmetry. apply slice_from_after. exact Hroom.
  - reflexivity.
Qed.

(** On a template written as text, block, text: the block is expanded
    with its body as written, and what follows it is expanded next. *)
Lemma _ExpandBlocks_block (pre tag body post : string) :
  first_block pre tag body = true ->
  _ExpandBlocks C expand (pre ++ block_text tag body ++ post) specials params name
  = (b <- _ExpandBlock C expand tag body specials params name ;;
     r <- _ExpandBlocks C expand post specials params name ;;
     ret (pre ++ b ++ r)).
Proof.
  unfold first_block. intros H.
  apply andb_prop in H as [H He]. apply andb_prop in H as [Ho Hc].
  apply no_occurrence_true in He.
  set (end_tag := END_BLOCK_OPEN ++ tag ++ BLOCK_CLOSE) in *.
  replace (pre ++ block_text tag body ++ post)
    with (pre ++ BLOCK_OPEN ++ tag ++ BLOCK_CLOSE ++ (body ++ end_tag ++ post))
    by (unfold block_text, end_tag; now rewrite !append_assoc).
  rewrite (_ExpandBlocks_open_tag pre tag _ Ho Hc). fold end_tag.
  assert (Ef : find_nat end_tag (body ++ end_tag ++ post)
               = Some (String.length body)).
  { unfold end_tag. rewrite end_tag_split. apply find_nat_first.
    rewrite <- He. unfold end_tag. now rewrite end_tag_split. }
  rewrite Ef, take_append.
  replace (drop (String.length body + String.length end_tag)
                (body ++ end_tag ++ post))
    with post; [reflexivity |].
  rewrite <- drop_drop, drop_append, drop_append. reflexivity.
Qed.

End BlockStep.

(** ** The block pass and its tags *)

Lemma split1_no_sep (sep : ascii) (s : string) :
  has_char sep s = false -> split1 sep s = inl s.
Proof.
  induction s as [|c s IH]; cbn [has_char split1]; [reflexivity |].
  destruct (Ascii.eqb c sep); cbn [orb]; [discriminate |].
  intros H. now rewrite (IH H).
Qed.

Lemma block_text_tail (pre tag body post : string) :
  pre ++ block_text tag body ++ post
  = pre ++ BLOCK_OPEN ++ tag ++ BLOCK_CLOSE
        ++ (body ++ (END_BLOCK_OPEN ++ tag ++ BLOCK_CLOSE) ++ post).
Proof.
  unfold block_text. now rewrite !append_assoc.
Qed.

(** C2: [ExpandTemplate] is the variable pass applied to the result of
    the block pass.  The block pass runs first and to its end: its trace
    is the whole trace, an exception or an exhausted recursion in it is
    the outcome, and only a template it returns is handed, once, to
    [_ExpandVariables]. *)
Theorem ExpandTemplate_two_passes
        (C : Collaborators) (fuel : nat) (template : string)
        (specials : list (string * Value)) (params : Value) (name : string) :
  ExpandTemplate C (S fuel) template specials params name
  = (t <- _ExpandBlocks C (ExpandTemplate C fuel) template specials params name ;;
     lift (_ExpandVariables specials params name C t))
  /\ ExpandTemplate C (S fuel) template specials params name
     = match _ExpandBlocks C (ExpandTemplate C fuel) template specials params name with
       | (tr, Some (Ok t)) => (tr, Some (_ExpandVariables specials params name C t))
       | (tr, Some (Raise e)) => (tr, Some (Raise e))
       | (tr, None) => (tr, None)
       end.
Proof.
  split; [reflexivity |].
  cbn [ExpandTemplate].
  destruct (_ExpandBlocks C (ExpandTemplate C fuel) template specials params name)
    as [tr [[t|e]|]]; cbn; try reflexivity.
  now rewrite app_nil_r.
Qed.

(** C6: when the loop of the block pass is at an open tag [[tag]] after
    which the string "[[/" + tag + "]]" does not occur, it stops: what it
    has collected is followed by the whole remainder, from the text
    before the open marker to the end of the template, as it is; no
    block is expanded and nothing is logged. *)
Theorem unmatched_open_tag_stops_scan
        (C : Collaborators)
        (expand : string -> list (string * Value) -> Value -> string -> M string)
        (specials : list (string * Value)) (params : Value) (name : string)
        (bound : nat) (result : list string) (pre tag tail : string) :
  no_occurrence BLOCK_OPEN (pre ++ "[") = true ->
  no_occurrence BLOCK_CLOSE (tag ++ "]") = true ->
  no_occurrence (END_BLOCK_OPEN ++ tag ++ BLOCK_CLOSE) tail = true ->
  _ExpandBlocks_loop C expand bound specials params name result
                     (pre ++ BLOCK_OPEN ++ tag ++ BLOCK_CLOSE ++ tail)
  = ([], Some (Ok (concat result ++ pre ++ BLOCK_OPEN ++ tag ++ BLOCK_CLOSE ++ tail))).
Proof.
  intros Ho Hc He. apply no_occurrence_true in He.
  destruct bound as [|bound]; [reflexivity |].
  cbn [_ExpandBlocks_loop].
  destruct (String.eqb _ EmptyString); [reflexivity |].
  rewrite (_FindTag_block pre tag tail Ho Hc).
  replace (pre ++ BLOCK_OPEN ++ tag ++ BLOCK_CLOSE ++ tail)
    with ((pre ++ BLOCK_OPEN ++ tag ++ BLOCK_CLOSE) ++ tail) at 1
    by now rewrite !append_assoc.
  rewrite find_from, He. reflexivity.
Qed.

(** C10: a closed block whose tag holds no ':' makes [ExpandTemplate]
    raise: the two-target unpacking of [tag.split(':', 1)] fails with a
    [ValueError] that nothing catches, whatever the body and whatever
    follows the block; and so at every turn of the loop of the block
    pass that comes to such a block. *)
Theorem block_tag_without_colon_raises
        (C : Collaborators) (fuel : nat)
        (specials : list (string * Value)) (params : Value) (name : string)
        (pre tag body post : string) :
  no_occurrence BLOCK_OPEN (pre ++ "[") = true ->
  no_occurrence BLOCK_CLOSE (tag ++ "]") = true ->
  has_char ":" tag = false ->
  ExpandTemplate C (S fuel) (pre ++ block_text tag body ++ post) specials params name
  = ([], Some (Raise ValueError))
  /\ (forall bound result,
         String.length (pre ++ block_text tag body ++ post) <= bound ->
         _ExpandBlocks_loop C (ExpandTemplate C fuel) bound specials params name
                            result (pre ++ block_text tag body ++ post)
         = ([], Some (Raise ValueError))).
Proof.
  intros Ho Hc Hcolon.
  assert (E : _ExpandBlocks C (ExpandTemplate C fuel)
                            (pre ++ block_text tag body ++ post)
                            specials params name
              = raise ValueError).
  { rewrite block_text_tail, (_ExpandBlocks_open_tag _ _ _ _ _ _ _ _ Ho Hc).
    destruct (find_nat_found (END_BLOCK_OPEN ++ tag ++ BLOCK_CLOSE) body post)
      as (i & Hi & _).
    rewrite Hi. unfold _ExpandBlock. rewrite (split1_no_sep _ _ Hcolon).
    reflexivity. }
  split.
  - cbn [ExpandTemplate]. now rewrite E.
  - intros bound result Hb.
    rewrite _ExpandBlocks_loop_result.
    rewrite (_ExpandBlocks_loop_bound _ _ _ _ _ bound
               (String.length (pre ++ block_text tag body ++ post)))
      by (exact Hb || apply le_n).
    fold (_ExpandBlocks C (ExpandTemplate C fuel)
                        (pre ++ block_text tag body ++ post) specials params name).
    now rewrite E.
Qed.

Lemma block_tag_without_colon_witness :
  ExpandTemplate no_files 1 "a[[foo]]body[[/foo]]z" [] VNone EmptyString
  = ([], Some (Raise ValueError)).
Proof.
  apply (proj1 (block_tag_without_colon_raises no_files 0 [] VNone EmptyString
                  "a" "foo" "body" "z" eq_refl eq_refl eq_refl)).
Defined.

Lemma unmatched_open_tag_witness :
  _ExpandBlocks_loop no_files (ExpandTemplate no_files 0) 9 [] VNone EmptyString
                     ["done;"] "a[[if:x]]b[[/if:y]]c"
  = ([], Some (Ok "done;a[[if:x]]b[[/if:y]]c")).
Proof.
  apply (unmatched_open_tag_stops_scan no_files (ExpandTemplate no_files 0)
           [] VNone EmptyString 9 ["done;"] "a" "if:x" "b[[/if:y]]c");
    reflexivity.
Defined.

(** ** Dispatch of a block on its type *)

Section Dispatch.

Variable C : Collaborators.
Variable expand :
  string -> list (string * Value) -> Value -> string -> M string.
Variable specials : list (string * Value).
Variable params : Value.
Variable name : string.

Lemma bind_lift_Ok {A B} (a : A) (k : A -> M B) : bind (lift (Ok a)) k = k a.
Proof. exact (bind_ret_l a k). Qed.

Lemma _ExpandBlock_if (expr body : string) :
  _ExpandBlock C expand ("if:" ++ expr) body specials params name
  = (block_data <- lift (_ExpandVariable specials params name C expr) ;;
     if truthy block_data then expand body specials params name
     else ret EmptyString).
Proof.
  unfold _ExpandBlock.
  change (split1 ":" ("if:" ++ expr)) with (@inr string _ ("if", expr)).
  cbn [unpack2]. now rewrite bind_lift_Ok.
Qed.

Lemma _ExpandBlock_for (expr body : string) :
  _ExpandBlock C expand ("for:" ++ expr) body specials params name
  = (block_data <- lift (_ExpandVariable specials params name C expr) ;;
     _ExpandFor expand ("for:" ++ expr) body specials block_data).
Proof.
  unfold _ExpandBlock.
  change (split1 ":" ("for:" ++ expr)) with (@inr string _ ("for", expr)).
  cbn [unpack2]. now rewrite bind_lift_Ok.
Qed.

Lemma _ExpandBlock_include (path body : string) :
  _ExpandBlock C expand ("include:" ++ path) body specials params name
  = _ExpandInclude C expand ("include:" ++ path) path body specials params name.
Proof.
  unfold _ExpandBlock.
  change (split1 ":" ("include:" ++ path)) with (@inr string _ ("include", path)).
  cbn [unpack2]. now rewrite bind_lift_Ok.
Qed.

(** The accumulating loop of [_ExpandFor] is an in-order map. *)
Lemma for_append_mapM {A} (xs : list A) (body : A -> M string) :
  forall result,
    for_append xs body result = (l <- mapM body xs ;; ret (result ++ l)%list).
Proof.
  induction xs as [|x xs IH]; intros result; cbn [for_append mapM].
  - now rewrite bind_ret_l, app_nil_r.
  - rewrite bind_assoc. apply bind_ext. intros r.
    rewrite IH, bind_assoc. apply bind_ext. intros l.
    now rewrite bind_ret_l, <- app_assoc.
Qed.

Lemma mapM_map {A B D} (h : A -> B) (f : B -> M D) (l : list A) :
  mapM f (map h l) = mapM (fun x => f (h x)) l.
Proof.
  induction l as [|x l IH]; cbn [map mapM]; [reflexivity | now rewrite IH].
Qed.

Lemma mapM_ext_in {A B} (f g : A -> M B) (l : list A) :
  (forall x, In x l -> f x = g x) -> mapM f l = mapM g l.
Proof.
  induction l as [|x l IH]; intros H; cbn [mapM]; [reflexivity |].
  rewrite (H x (or_introl eq_refl)).
  rewrite IH; [reflexivity |]. intros y Hy. apply H. now right.
Qed.

(** In a mapping with unique keys every binding is the one read back. *)
Lemma lookup_NoDup (kvs : list (string * Value)) (k : string) (v : Value) :
  NoDup (map fst kvs) -> In (k, v) kvs -> lookup k kvs = Some v.
Proof.
  induction kvs as [|[k' v'] kvs IH]; intros Hnd Hin; [contradiction |].
  cbn [map fst] in Hnd. inversion Hnd as [|? ? Hnotin Hnd']; subst.
  cbn [lookup]. destruct Hin as [[= -> ->]|Hin].
  - now rewrite String.eqb_refl.
  - destruct (String.eqb_spec k k') as [->|_]; [| now apply IH].
    exfalso. apply Hnotin. now apply (in_map fst) in Hin.
Qed.

(** [_ExpandFor] over a mapping with unique keys. *)
Lemma _ExpandFor_mapping (tag body : string) (kvs : list (string * Value)) :
  NoDup (map fst kvs) ->
  _ExpandFor expand tag body specials (VDict kvs)
  = (parts <- mapM (fun kv => expand body specials (snd kv) (fst kv)) kvs ;;
     ret (concat parts)).
Proof.
  intros Hnd. unfold _ExpandFor. cbn [isMapping].
  rewrite for_append_mapM, bind_assoc, mapM_map.
  rewrite (mapM_ext_in _ (fun kv => expand body specials (snd kv) (fst kv))).
  - apply bind_ext. intros l. now rewrite bind_ret_l.
  - intros [k v] Hin. cbn [fst snd getitem_key].
    rewrite (lookup_NoDup kvs k v Hnd Hin). now rewrite bind_lift_Ok.
Qed.

End Dispatch.

(** ** Conditional and iteration blocks *)

(** The falsy values are the six of the truthiness rule. *)
Lemma truthy_false_iff (v : Value) :
  truthy v = false
  <-> v = VNone \/ v = VBool false \/ v = VInt 0 \/ v = VStr EmptyString
      \/ v = VDict [] \/ v = VList [].
Proof.
  split.
  - destruct v as [|[]|z|s|kvs|l]; cbn [truthy]; intros H.
    + auto.
    + discriminate.
    + auto.
    + destruct (Z.eqb_spec z 0) as [E|E]; [subst; auto 6 | discriminate].
    + destruct (String.eqb_spec s EmptyString) as [E|E];
        [subst; auto 6 | discriminate].
    + destruct kvs; [auto 6 | discriminate].
    + destruct l; [auto 7 | discriminate].
  - intros [->|[->|[->|[->|[->| ->]]]]]; reflexivity.
Qed.

(** C4: an [[if:expr]] block whose argument resolves to a truthy value
    contributes the expansion of its body by [ExpandTemplate], with the
    same context and name; one whose argument resolves to a falsy value
    (None, False, zero, the empty string, the empty mapping, the empty
    sequence) contributes the empty string.  In particular
    "a[[if:x]]b[[/if:x]]c" expands to "abc" when x is True and to "ac"
    when x is False or missing. *)
Theorem if_block_expansion :
  (forall (C : Collaborators) (fuel : nat)
          (specials : list (string * Value)) (params : Value) (name : string)
          (pre expr body post : string) (v : Value),
      first_block pre ("if:" ++ expr) body = true ->
      _ExpandVariable specials params name C expr = Ok v ->
      _ExpandBlocks C (ExpandTemplate C fuel)
                    (pre ++ block_text ("if:" ++ expr) body ++ post)
                    specials params name
      = (b <- (if truthy v then ExpandTemplate C fuel body specials params name
               else ret EmptyString) ;;
         r <- _ExpandBlocks C (ExpandTemplate C fuel) post specials params name ;;
         ret (pre ++ b ++ r)))
  /\ (forall v, truthy v = false
                <-> v = VNone \/ v = VBool false \/ v = VInt 0
                    \/ v = VStr EmptyString \/ v = VDict [] \/ v = VList [])
  /\ (forall C,
         ExpandTemplate C 2 "a[[if:x]]b[[/if:x]]c" []
                        (VDict [("x", VBool true)]) EmptyString
         = ([], Some (Ok "abc"))
         /\ ExpandTemplate C 2 "a[[if:x]]b[[/if:x]]c" []
                           (VDict [("x", VBool false)]) EmptyString
            = ([], Some (Ok "ac"))
         /\ ExpandTemplate C 2 "a[[if:x]]b[[/if:x]]c" [] (VDict []) EmptyString
            = ([], Some (Ok "ac"))).
Proof.
  split; [| split].
  - intros C fuel specials params name pre expr body post v Hfb Hv.
    rewrite (_ExpandBlocks_block _ _ _ _ _ _ _ _ _ Hfb).
    now rewrite _ExpandBlock_if, Hv, bind_lift_Ok.
  - exact truthy_false_iff.
  - intros C. repeat split; vm_compute; reflexivity.
Qed.

Lemma if_block_expansion_witness :
  _ExpandBlocks no_files (ExpandTemplate no_files 1)
                ("a" ++ block_text ("if:" ++ "!x") "b{{y}}" ++ "c[[")
                [] (VDict [("y", VInt 7)]) EmptyString
  = ([], Some (Ok "ab7c[[")).
Proof.
  rewrite (proj1 if_block_expansion no_files 1 [] (VDict [("y", VInt 7)])
             EmptyString "a" "!x" "b{{y}}" "c[[" (VBool true));
    reflexivity.
Defined.

(** C5, read with a string among the values that are not sequences,
    fails: the block over "ab" is
    expanded once per character, and nothing is logged. *)
Lemma for_block_over_string_counterexample :
  _ExpandVariable [] (VDict [("s", VStr "ab")]) EmptyString no_files "s"
  = Ok (VStr "ab")
  /\ ExpandTemplate no_files 2 "[[for:s]]{{_this}}-[[/for:s]]" []
                    (VDict [("s", VStr "ab")]) EmptyString
     = ([], Some (Ok "a-b-"))
  /\ ExpandTemplate no_files 2 "[[for:s]]{{_this}}-[[/for:s]]" []
                    (VDict [("s", VStr "ab")]) EmptyString
     <> ([EvLog "Error: Invalid type: for:s"], Some (Ok EmptyString)).
Proof.
  repeat split; try reflexivity. vm_compute. discriminate.
Qed.

(** ** Resource handles are released *)

Lemma balanced_nil : balanced [].
Proof. intros opened. reflexivity. Qed.

Lemma balanced_app (a b : list event) :
  balanced a -> balanced b -> balanced (a ++ b).
Proof.
  intros Ha Hb opened. now rewrite fold_left_app, Ha, Hb.
Qed.

Lemma balanced_log (m : string) : balanced [EvLog m].
Proof. intros opened. reflexivity. Qed.

Lemma remove_one_head (f : nat) (l : list nat) : remove_one f (f :: l) = l.
Proof. cbn [remove_one]. now rewrite Nat.eqb_refl. Qed.

Lemma balanced_open_close (f : nat) : balanced [EvOpen f; EvClose f].
Proof. intros opened. cbn [fold_left track]. apply remove_one_head. Qed.

Lemma balanced_open_log_close (f : nat) (m : string) :
  balanced [EvOpen f; EvLog m; EvClose f].
Proof. intros opened. cbn [fold_left track]. apply remove_one_head. Qed.

Lemma balanced_bind {A B} (m : M A) (k : A -> M B) :
  balanced (fst m) -> (forall a, balanced (fst (k a))) ->
  balanced (fst (bind m k)).
Proof.
  intros Hm Hk. destruct m as [tr [[a|e]|]]; cbn [bind fst] in *; try exact Hm.
  specialize (Hk a). destruct (k a) as [tr' r]. cbn [fst] in *.
  now apply balanced_app.
Qed.

Section Release.

Variable C : Collaborators.
Variable expand :
  string -> list (string * Value) -> Value -> string -> M string.
Hypothesis expand_balanced :
  forall template specials params name,
    balanced (fst (expand template specials params name)).

Lemma for_append_balanced {A} (xs : list A) (body : A -> M string) :
  (forall x, balanced (fst (body x))) ->
  forall result, balanced (fst (for_append xs body result)).
Proof.
  intros Hb. induction xs as [|x xs IH]; intros result; cbn [for_append].
  - apply balanced_nil.
  - apply balanced_bind; [apply Hb | intros r; apply IH].
Qed.

Lemma _ExpandInclude_balanced tag filename template specials params name :
  balanced (fst (_ExpandInclude C expand tag filename template specials
                                params name)).
Proof.
  unfold _ExpandInclude.
  apply balanced_bind; [| intros r; apply expand_balanced].
  destruct (gruyere_Open C _ _) as [f|e].
  - destruct (file_read C f) as [text|e].
    + apply balanced_open_close.
    + destruct e; first [apply balanced_open_close | apply balanced_open_log_close].
  - destruct e; first [apply balanced_nil | apply balanced_log].
Qed.

Lemma _ExpandFor_balanced tag template specials block_data :
  balanced (fst (_ExpandFor expand tag template specials block_data)).
Proof.
  unfold _ExpandFor. destruct (isMapping block_data).
  - apply balanced_bind; [| intros r; apply balanced_nil].
    apply for_append_balanced. intros x.
    apply balanced_bind; [apply balanced_nil | intros a; apply expand_balanced].
  - destruct (isSequence block_data).
    + apply balanced_bind; [| intros r; apply balanced_nil].
      apply for_append_balanced. intros x.
      apply balanced_bind; [apply balanced_nil | intros a; apply expand_balanced].
    + apply balanced_log.
Qed.

Lemma _ExpandBlock_balanced tag template specials params name :
  balanced (fst (_ExpandBlock C expand tag template specials params name)).
Proof.
  unfold _ExpandBlock. apply balanced_bind; [apply balanced_nil |].
  intros [tag_type block_var].
  destruct (String.eqb tag_type INCLUDE_TAG); [apply _ExpandInclude_balanced |].
  destruct (String.eqb tag_type IF_TAG).
  { apply balanced_bind; [apply balanced_nil |]. intros v.
    destruct (truthy v); [apply expand_balanced | apply balanced_nil]. }
  destruct (String.eqb tag_type FOR_TAG).
  { apply balanced_bind; [apply balanced_nil |]. intros v.
    apply _ExpandFor_balanced. }
  apply balanced_log.
Qed.

Lemma _ExpandBlocks_loop_balanced specials params name (bound : nat) :
  forall result rest,
    balanced (fst (_ExpandBlocks_loop C expand bound specials params name
                                      result rest)).
Proof.
  induction bound as [|bound IH]; intros result rest; cbn [_ExpandBlocks_loop].
  - apply balanced_nil.
  - destruct (String.eqb rest EmptyString); [apply balanced_nil |].
    destruct (_FindTag rest BLOCK_OPEN BLOCK_CLOSE) as [[[tag bt] at_]|];
      [| apply balanced_nil].
    destruct (find rest _ at_ <? 0)%Z; [apply balanced_nil |].
    apply balanced_bind; [apply _ExpandBlock_balanced | intros b; apply IH].
Qed.

End Release.

(** Every expansion leaves a balanced trace: no handle that
    [_ExpandInclude] opens, at any depth, stays open, however the
    expansion ends. *)
Lemma ExpandTemplate_balanced (C : Collaborators) (fuel : nat) :
  forall template specials params name,
    balanced (fst (ExpandTemplate C fuel template specials params name)).
Proof.
  induction fuel as [|fuel IH]; intros template specials params name;
    cbn [ExpandTemplate].
  - apply balanced_nil.
  - apply balanced_bind; [| intros t; apply balanced_nil].
    apply _ExpandBlocks_loop_balanced. exact IH.
Qed.

(** C3: an [[include:path]] block whose resource cannot be read (it does
    not open, or it opens and the read fails, with an [IOError]) logs
    "Error: missing filename: " followed by the path and contributes the
    expansion of its own body by [ExpandTemplate], with the same context
    and name, in place of the block: the read failure is no error of the
    expansion.  A handle that was opened is closed before the content is
    expanded, when the read fails as when it succeeds, and no expansion
    leaves a handle open. *)
Theorem include_unreadable_falls_back :
  (forall (C : Collaborators) (fuel : nat)
          (specials : list (string * Value)) (params : Value) (name : string)
          (pre path body post : string),
      first_block pre ("include:" ++ path) body = true ->
      let fname := os_sep C ++ replace "/" (os_sep C) path in
      let blocks := _ExpandBlocks C (ExpandTemplate C fuel)
                      (pre ++ block_text ("include:" ++ path) body ++ post)
                      specials params name in
      let splice content :=
        (b <- ExpandTemplate C fuel content specials params name ;;
         r <- _ExpandBlocks C (ExpandTemplate C fuel) post specials params name ;;
         ret (pre ++ b ++ r)) in
      (gruyere_Open C (RESOURCE_PATH C) fname = Raise IOError ->
       blocks = (_Log ("Error: missing filename: " ++ path) ;;; splice body))
      /\ (forall f,
             gruyere_Open C (RESOURCE_PATH C) fname = Ok f ->
             file_read C f = Raise IOError ->
             blocks = (emit (EvOpen f) ;;;
                       _Log ("Error: missing filename: " ++ path) ;;;
                       emit (EvClose f) ;;; splice body))
      /\ (forall f text,
             gruyere_Open C (RESOURCE_PATH C) fname = Ok f ->
             file_read C f = Ok text ->
             blocks = (emit (EvOpen f) ;;; emit (EvClose f) ;;; splice text)))
  /\ (forall (C : Collaborators) (fuel : nat) (template : string)
             (specials : list (string * Value)) (params : Value) (name : string),
         open_handles (fst (ExpandTemplate C fuel template specials params name))
         = [])
  /\ ExpandTemplate no_files 2 "[[include:nope]]fallback[[/include:nope]]" []
                    (VDict []) EmptyString
     = ([EvLog "Error: missing filename: nope"], Some (Ok "fallback")).
Proof.
  split; [| split].
  - intros C fuel specials params name pre path body post Hfb fname blocks splice.
    assert (E : blocks
                = (b <- _ExpandInclude C (ExpandTemplate C fuel)
                          ("include:" ++ path) path body
                          specials params name ;;
                   r <- _ExpandBlocks C (ExpandTemplate C fuel) post
                          specials params name ;;
                   ret (pre ++ b ++ r))).
    { unfold blocks. rewrite (_ExpandBlocks_block _ _ _ _ _ _ _ _ _ Hfb).
      now rewrite _ExpandBlock_include. }
    rewrite E. unfold _ExpandInclude. fold fname. unfold splice.
    split; [| split].
    + intros Ho. rewrite Ho, !bind_assoc. apply bind_ext. intros _.
      now rewrite bind_ret_l.
    + intros f Ho Hr. rewrite Ho, Hr, !bind_assoc.
      apply bind_ext. intros _. apply bind_ext. intros _.
      apply bind_ext. intros _. now rewrite bind_ret_l.
    + intros f text Ho Hr. rewrite Ho, Hr, !bind_assoc.
      apply bind_ext. intros _. apply bind_ext. intros _.
      now rewrite bind_ret_l.
  - intros C fuel template specials params name.
    apply (ExpandTemplate_balanced C fuel template specials params name []).
  - vm_compute. reflexivity.
Qed.

Lemma include_unreadable_witness :
  _ExpandBlocks two_files (ExpandTemplate two_files 1)
                ("a" ++ block_text ("include:" ++ "broken.gtl") "[{{user}}]" ++ "z")
                [] (VDict [("user", VStr "ann")]) EmptyString
  = ([EvOpen 4; EvLog "Error: missing filename: broken.gtl"; EvClose 4],
     Some (Ok "a[ann]z"))
  /\ _ExpandBlocks two_files (ExpandTemplate two_files 1)
                   ("a" ++ block_text ("include:" ++ "menu.gtl") "[{{user}}]" ++ "z")
                   [] (VDict [("user", VStr "ann")]) EmptyString
     = ([EvOpen 3; EvClose 3], Some (Ok "a<ann>z"))
  /\ _ExpandBlocks two_files (ExpandTemplate two_files 1)
                   ("a" ++ block_text ("include:" ++ "none") "[{{user}}]" ++ "z")
                   [] (VDict [("user", VStr "ann")]) EmptyString
     = ([EvLog "Error: missing filename: none"], Some (Ok "a[ann]z")).
Proof.
  split; [| split].
  - rewrite (proj1 (proj2 (proj1 include_unreadable_falls_back two_files 1 []
                             (VDict [("user", VStr "ann")]) EmptyString
                             "a" "broken.gtl" "[{{user}}]" "z" eq_refl))
               4 eq_refl eq_refl).
    vm_compute. reflexivity.
  - rewrite (proj2 (proj2 (proj1 include_unreadable_falls_back two_files 1 []
                             (VDict [("user", VStr "ann")]) EmptyString
                             "a" "menu.gtl" "[{{user}}]" "z" eq_refl))
               3 "<{{user}}>" eq_refl eq_refl).
    vm_compute. reflexivity.
  - rewrite (proj1 (proj1 include_unreadable_falls_back two_files 1 []
                      (VDict [("user", VStr "ann")]) EmptyString
                      "a" "none" "[{{user}}]" "z" eq_refl) eq_refl).
    vm_compute. reflexivity.
Defined.

(** ** Variable expressions and their escaper *)

Lemma prefix_empty (s : string) : String.prefix EmptyString s = true.
Proof. now destruct s. Qed.

Lemma find_nat_char_none (c : ascii) (s : string) :
  has_char c s = false -> find_nat (String c EmptyString) s = None.
Proof.
  induction s as [|x s IH]; cbn [has_char find_nat String.prefix];
    [reflexivity |].
  destruct (Ascii.eqb_spec x c) as [->|Hne]; cbn [orb]; [discriminate |].
  intros H. destruct (ascii_dec c x) as [->|_]; [contradiction |].
  now rewrite (IH H).
Qed.

Lemma split1_append (sep : ascii) (a b : string) :
  has_char sep a = false -> split1 sep (a ++ String sep b) = inr (a, b).
Proof.
  induction a as [|c a IH]; cbn [has_char split1 append].
  - now rewrite Ascii.eqb_refl.
  - destruct (Ascii.eqb c sep); cbn [orb]; [discriminate |].
    intros H. now rewrite (IH H).
Qed.

Lemma find_char_present (c : ascii) (a b : string) :
  (0 <=? find (a ++ String c b) (String c EmptyString) 0)%Z = true.
Proof.
  rewrite find_from_start.
  destruct (find_nat_found (String c EmptyString) a b) as (i & Hi & _).
  cbn [append] in Hi. rewrite Hi. apply Z.leb_le. lia.
Qed.

Lemma find_char_absent (c : ascii) (s : string) :
  has_char c s = false ->
  (0 <=? find s (String c EmptyString) 0)%Z = false.
Proof.
  intros H. now rewrite find_from_start, (find_nat_char_none c s H).
Qed.

Lemma slice_from_cons (c : ascii) (s : string) : slice_from (String c s) 1 = s.
Proof.
  unfold slice_from. rewrite clip_inside; [reflexivity |].
  unfold len. cbn [String.length]. lia.
Qed.

Lemma has_char_drop_first (c x : ascii) (s : string) :
  has_char c (String x s) = false -> has_char c s = false.
Proof.
  cbn [has_char]. destruct (Ascii.eqb x c); [discriminate | auto].
Qed.

Lemma has_char_slice_from (c : ascii) (s : string) :
  has_char c s = false -> has_char c (slice_from s 1) = false.
Proof.
  destruct s as [|x s]; [auto |].
  rewrite slice_from_cons. apply has_char_drop_first.
Qed.

(** The one-character prefix tests of [_ExpandVariable] do not see an
    escaper that is appended. *)
Lemma startswith_before_escaper (p : ascii) (var e : string) :
  p <> ":"%char ->
  startswith (var ++ String ":" e) (String p EmptyString)
  = startswith var (String p EmptyString).
Proof.
  intros Hp. unfold startswith. destruct var as [|c var].
  - cbn. destruct (ascii_dec p ":"); [contradiction | reflexivity].
  - apply prefix_append_le. cbn [String.length]. lia.
Qed.

Lemma slice_from_before_escaper (var e : string) :
  startswith var "!" = true ->
  slice_from (var ++ String ":" e) 1 = slice_from var 1 ++ String ":" e.
Proof.
  destruct var as [|c var]; [discriminate |].
  intros _. cbn [append]. now rewrite !slice_from_cons.
Qed.

Section Escapers.

Variable specials : list (string * Value).
Variable params : Value.
Variable name : string.
Variable C : Collaborators.

(** [_ExpandVariable] on an expression with an escaper, and on one
    with none, once the comment test and the two splits are done. *)
Lemma _ExpandVariable_with_escaper (var e : string) :
  has_char ":" var = false ->
  startswith var "#" = false ->
  _ExpandVariable specials params name C (var ++ String ":" e)
  = (let inverted := startswith var "!" in
     let w := if inverted then slice_from var 1 else var in
     value <~ _ExpandValue specials params name w (VStr EmptyString) ;;
     let value := if inverted then VBool (negb (truthy value)) else value in
     value <~ apply_escaper C (Some e) value ;;
     Ok (match value with VNone => VStr EmptyString | _ => value end)).
Proof.
  intros Hc Hh. unfold _ExpandVariable.
  rewrite !startswith_before_escaper by discriminate. rewrite Hh.
  cbv zeta.
  destruct (startswith var "!") eqn:Hb.
  - rewrite (slice_from_before_escaper var e Hb).
    rewrite find_char_present, split1_append
      by now apply has_char_slice_from.
    reflexivity.
  - rewrite find_char_present, split1_append by exact Hc. reflexivity.
Qed.

Lemma _ExpandVariable_without_escaper (var : string) :
  has_char ":" var = false ->
  startswith var "#" = false ->
  _ExpandVariable specials params name C var
  = (let inverted := startswith var "!" in
     let w := if inverted then slice_from var 1 else var in
     value <~ _ExpandValue specials params name w (VStr EmptyString) ;;
     let value := if inverted then VBool (negb (truthy value)) else value in
     Ok (match value with VNone => VStr EmptyString | _ => value end)).
Proof.
  intros Hc Hh. unfold _ExpandVariable. rewrite Hh. cbv zeta.
  destruct (startswith var "!") eqn:Hb.
  - rewrite find_char_absent by now apply has_char_slice_from.
    cbn [bindR apply_escaper].
    now destruct (_ExpandValue specials params name _ _).
  - rewrite find_char_absent by exact Hc.
    cbn [bindR apply_escaper].
    now destruct (_ExpandValue specials params name _ _).
Qed.

End Escapers.

(** C7, on the code: the pprint escaper produces nothing.  Its branch
    calls [cgi.escape] in a module that does not import [cgi], so every
    expression that resolves without the escaper raises a [NameError]
    with it, and the exception leaves [ExpandTemplate]. *)
Theorem pprint_escaper_raises_NameError
        (specials : list (string * Value)) (params : Value) (name : string)
        (C : Collaborators) (var : string) (v : Value) :
  has_char ":" var = false ->
  startswith var "#" = false ->
  _ExpandVariable specials params name C var = Ok v ->
  _ExpandVariable specials params name C (var ++ ":pprint") = Raise NameError
  /\ (forall x, apply_escaper C (Some "pprint") x = Raise NameError)
  /\ ExpandTemplate C 1 "{{x:pprint}}" [] (VDict [("x", VInt 1)]) EmptyString
     = ([], Some (Raise NameError)).
Proof.
  intros Hc Hs Hv. split; [| split; [reflexivity | vm_compute; reflexivity]].
  change (var ++ ":pprint") with (var ++ String ":" "pprint").
  rewrite (_ExpandVariable_with_escaper _ _ _ _ _ _ Hc Hs).
  rewrite (_ExpandVariable_without_escaper _ _ _ _ _ Hc Hs) in Hv.
  cbv zeta in *.
  destruct (_ExpandValue specials params name _ _) as [x|ex];
    [reflexivity | discriminate].
Qed.

Lemma pprint_escaper_witness :
  _ExpandVariable [] (VDict [("x", VInt 1)]) EmptyString no_files
                  ("x" ++ ":pprint") = Raise NameError
  /\ (forall x, apply_escaper no_files (Some "pprint") x = Raise NameError)
  /\ ExpandTemplate no_files 1 "{{x:pprint}}" [] (VDict [("x", VInt 1)])
                    EmptyString
     = ([], Some (Raise NameError)).
Proof.
  apply (pprint_escaper_raises_NameError [] (VDict [("x", VInt 1)]) EmptyString
           no_files "x" (VInt 1)); reflexivity.
Defined.

(** ** Path resolution *)

Lemma split_no_sep (sep : ascii) (s : string) :
  has_char sep s = false -> split sep s = [s].
Proof.
  induction s as [|c s IH]; cbn [has_char split]; [reflexivity |].
  destruct (Ascii.eqb c sep); cbn [orb]; [discriminate |].
  intros H. now rewrite (IH H).
Qed.

(** C1, on the code: path resolution does raise.  A field [*x] whose
    request parameter [x] is absent reads the default [''] from
    [_params], takes it for a sequence and indexes it at [0]: an
    [IndexError], which leaves [_ExpandValue], [_ExpandVariable] and
    [ExpandTemplate]. *)
Theorem star_field_absent_param_raises
        (specials : list (string * Value)) (params : Value) (name : string)
        (C : Collaborators) (ps : list (string * Value)) (x : string) :
  lookup "_params" specials = Some (VDict ps) ->
  lookup x ps = None ->
  has_char "." x = false ->
  has_char ":" x = false ->
  String.eqb x "_this" = false ->
  _ExpandValue specials params name ("*" ++ x) (VStr EmptyString)
  = Raise IndexError
  /\ _ExpandVariable specials params name C ("*" ++ x) = Raise IndexError
  /\ ExpandTemplate C 1 "{{*x}}"
                    [("_db", VDict []); ("_cookie", VDict []);
                     ("_profile", VDict []); ("_params", VDict [])]
                    (VDict []) EmptyString
     = ([], Some (Raise IndexError)).
Proof.
  intros Hp Hx Hdot Hcolon Hthis.
  assert (E : _ExpandValue specials params name ("*" ++ x) (VStr EmptyString)
              = Raise IndexError).
  { unfold _ExpandValue. cbn [append String.eqb Ascii.eqb Bool.eqb].
    change (startswith (String "*" x) "_") with false. cbv iota.
    rewrite split_no_sep by exact Hdot.
    cbn [_ExpandValue_loop]. unfold _ExpandValue_step.
    replace (String.eqb (String "*" x) "*_this") with false
      by (cbn [String.eqb Ascii.eqb Bool.eqb]; now rewrite Hthis).
    change (startswith (String "*" x) "*") with (String.prefix EmptyString x).
    rewrite prefix_empty, slice_from_cons.
    cbn [getitem_key]. rewrite Hp. cbn [bindR].
    unfold _GetValue at 1. cbn [isMapping contains isSequence andb].
    rewrite Hx. reflexivity. }
  split; [exact E | split; [| vm_compute; reflexivity]].
  rewrite _ExpandVariable_without_escaper; [| exact Hcolon | reflexivity].
  change (startswith ("*" ++ x) "!") with false. cbv zeta iota.
  now rewrite E.
Qed.

Lemma star_field_absent_param_witness :
  _ExpandValue [("_db", VDict []); ("_cookie", VDict []);
                ("_profile", VDict []); ("_params", VDict [("uid", VList [VStr "7"])])]
               (VDict []) EmptyString ("*" ++ "page") (VStr EmptyString)
  = Raise IndexError
  /\ _ExpandVariable [("_db", VDict []); ("_cookie", VDict []);
                      ("_profile", VDict []);
                      ("_params", VDict [("uid", VList [VStr "7"])])]
                     (VDict []) EmptyString no_files ("*" ++ "page")
     = Raise IndexError
  /\ ExpandTemplate no_files 1 "{{*x}}"
                    [("_db", VDict []); ("_cookie", VDict []);
                     ("_profile", VDict []); ("_params", VDict [])]
                    (VDict []) EmptyString
     = ([], Some (Raise IndexError)).
Proof.
  apply (star_field_absent_param_raises
           [("_db", VDict []); ("_cookie", VDict []);
            ("_profile", VDict []); ("_params", VDict [("uid", VList [VStr "7"])])]
           (VDict []) EmptyString no_files [("uid", VList [VStr "7"])] "page");
    reflexivity.
Defined.

(** Three more ways in which a variable expression raises, with the four
    special keys present: an empty request parameter, [*_this] where
    [params] is not a string, and an index written with a superscript
    digit, which [isdigit] accepts and [int] refuses. *)
Example path_resolution_raises_more :
  let specials empty :=
    [("_db", VDict []); ("_cookie", VDict []); ("_profile", VDict []);
     ("_params", VDict [("x", empty)])] in
  ExpandTemplate no_files 1 "{{_db.*x}}" (specials (VList [])) (VDict [])
                 EmptyString
  = ([], Some (Raise IndexError))
  /\ ExpandTemplate no_files 1 "{{_db.*x}}" (specials (VStr EmptyString))
                    (VDict []) EmptyString
     = ([], Some (Raise IndexError))
  /\ ExpandTemplate no_files 1 "{{*_this}}" (specials (VList []))
                    (VDict [("a", VInt 1)]) EmptyString
     = ([], Some (Raise AttributeError))
  /\ ExpandTemplate no_files 1
                    ("{{items." ++ String (ascii_of_nat 178) "}}")
                    (specials (VList []))
                    (VDict [("items", VList [VStr "a"; VStr "b"; VStr "c"])])
                    EmptyString
     = ([], Some (Raise ValueError)).
Proof.
  cbv zeta. repeat split; vm_compute; reflexivity.
Qed.

(** ** The fuel only bounds the recursion *)

Lemma refines_refl {A} (m : M A) : refines m m.
Proof. now right. Qed.

Lemma refines_bind {A B} (m1 m2 : M A) (k1 k2 : A -> M B) :
  refines m1 m2 -> (forall a, refines (k1 a) (k2 a)) ->
  refines (bind m1 k1) (bind m2 k2).
Proof.
  intros [Hn| <-] Hk.
  - left. destruct m1 as [tr [r|]]; [discriminate | reflexivity].
  - destruct m1 as [tr [[a|e]|]]; cbn [bind]; try (now right).
    destruct (Hk a) as [Hn|E].
    + left. destruct (k1 a) as [tr' r]. exact Hn.
    + right. now rewrite E.
Qed.

Section FuelMonotone.

Variable C : Collaborators.
Variables expand1 expand2 :
  string -> list (string * Value) -> Value -> string -> M string.
Hypothesis expand_refines :
  forall template specials params name,
    refines (expand1 template specials params name)
            (expand2 template specials params name).

Lemma for_append_refines {A} (xs : list A) (body1 body2 : A -> M string) :
  (forall x, refines (body1 x) (body2 x)) ->
  forall result,
    refines (for_append xs body1 result) (for_append xs body2 result).
Proof.
  intros Hb. induction xs as [|x xs IH]; intros result; cbn [for_append].
  - apply refines_refl.
  - apply refines_bind; [apply Hb | intros r; apply IH].
Qed.

Lemma _ExpandFor_refines tag template specials block_data :
  refines (_ExpandFor expand1 tag template specials block_data)
          (_ExpandFor expand2 tag template specials block_data).
Proof.
  unfold _ExpandFor.
  destruct (isMapping block_data); [| destruct (isSequence block_data)];
    try apply refines_refl;
    (apply refines_bind; [| intros r; apply refines_refl]);
    apply for_append_refines; intros x;
    (apply refines_bind; [apply refines_refl | intros a; apply expand_refines]).
Qed.

Lemma _ExpandBlock_refines tag template specials params name :
  refines (_ExpandBlock C expand1 tag template specials params name)
          (_ExpandBlock C expand2 tag template specials params name).
Proof.
  unfold _ExpandBlock. apply refines_bind; [apply refines_refl |].
  intros [tag_type block_var].
  destruct (String.eqb tag_type INCLUDE_TAG).
  { unfold _ExpandInclude.
    apply refines_bind; [apply refines_refl | intros r; apply expand_refines]. }
  destruct (String.eqb tag_type IF_TAG).
  { apply refines_bind; [apply refines_refl |]. intros v.
    destruct (truthy v); [apply expand_refines | apply refines_refl]. }
  destruct (String.eqb tag_type FOR_TAG); [| apply refines_refl].
  apply refines_bind; [apply refines_refl |]. intros v.
  apply _ExpandFor_refines.
Qed.

Lemma _ExpandBlocks_loop_refines specials params name (bound : nat) :
  forall result rest,
    refines (_ExpandBlocks_loop C expand1 bound specials params name result rest)
            (_ExpandBlocks_loop C expand2 bound specials params name result rest).
Proof.
  induction bound as [|bound IH]; intros result rest; cbn [_ExpandBlocks_loop].
  - apply refines_refl.
  - destruct (String.eqb rest EmptyString); [apply refines_refl |].
    destruct (_FindTag rest BLOCK_OPEN BLOCK_CLOSE) as [[[tag bt] at_]|];
      [| apply refines_refl].
    destruct (find rest _ at_ <? 0)%Z; [apply refines_refl |].
    apply refines_bind; [apply _ExpandBlock_refines | intros b; apply IH].
Qed.

End FuelMonotone.

(** One more unit of fuel changes nothing in an expansion that was not
    cut short. *)
Lemma ExpandTemplate_fuel_step (C : Collaborators) (fuel : nat) :
  forall template specials params name,
    refines (ExpandTemplate C fuel template specials params name)
            (ExpandTemplate C (S fuel) template specials params name).
Proof.
  induction fuel as [|fuel IH]; intros template specials params name.
  - now left.
  - cbn [ExpandTemplate].
    apply refines_bind; [| intros t; apply refines_refl].
    apply _ExpandBlocks_loop_refines. exact IH.
Qed.

(** An expansion that returned or raised does the same with any larger
    fuel. *)
Lemma ExpandTemplate_fuel_more (C : Collaborators) (fuel extra : nat)
      template specials params name tr r :
  ExpandTemplate C fuel template specials params name = (tr, Some r) ->
  ExpandTemplate C (fuel + extra) template specials params name = (tr, Some r).
Proof.
  intros H. induction extra as [|extra IH].
  - now rewrite Nat.add_0_r.
  - rewrite Nat.add_succ_r.
    destruct (ExpandTemplate_fuel_step C (fuel + extra) template specials
                                       params name) as [Hn|E].
    + rewrite IH in Hn. discriminate.
    + now rewrite <- E.
Qed.

(** ** Expansion ends when no resource is read *)

Lemma terminates_bind {A B} (m : M A) (k : A -> M B) :
  terminates m ->
  (forall tr a, m = (tr, Some (Ok a)) -> terminates (k a)) ->
  terminates (bind m k).
Proof.
  unfold terminates. intros Hm Hk.
  destruct m as [tr [[a|e]|]]; cbn [bind snd] in *; try discriminate;
    [| contradiction].
  specialize (Hk tr a eq_refl). destruct (k a) as [tr' r]. exact Hk.
Qed.

Lemma terminates_some {A} (tr : list event) (r : result A) :
  terminates (tr, Some r).
Proof. discriminate. Qed.

Lemma length_take_le (n : nat) (s : string) :
  String.length (take n s) <= String.length s.
Proof.
  revert s; induction n as [|n IH]; intros [|c s]; simpl; try lia.
  specialize (IH s). lia.
Qed.

(** The body of a block is shorter than the text it is cut from. *)
Lemma length_slice (s : string) (a b : Z) :
  (0 < a)%Z -> s <> EmptyString ->
  String.length (slice s a b) < String.length s.
Proof.
  intros Ha Hs. unfold slice.
  pose proof (length_take_le (Z.to_nat (clip (len s) b - clip (len s) a))
                             (drop (Z.to_nat (clip (len s) a)) s)) as H.
  pose proof (length_slice_from s a Ha Hs) as H'.
  unfold slice_from in H'. lia.
Qed.

Section NoResources.

Variable C : Collaborators.
Hypothesis nothing_opens :
  forall location filename, exists e, gruyere_Open C location filename = Raise e.
Variable expand :
  string -> list (string * Value) -> Value -> string -> M string.

Lemma for_append_terminates {A} (xs : list A) (body : A -> M string) :
  (forall x, terminates (body x)) ->
  forall result, terminates (for_append xs body result).
Proof.
  intros Hb. induction xs as [|x xs IH]; intros result; cbn [for_append].
  - apply terminates_some.
  - apply terminates_bind; [apply Hb | intros tr r _; apply IH].
Qed.

Lemma _ExpandBlock_terminates tag template specials params name :
  (forall sp pa na, terminates (expand template sp pa na)) ->
  terminates (_ExpandBlock C expand tag template specials params name).
Proof.
  intros He. unfold _ExpandBlock.
  apply terminates_bind; [apply terminates_some |].
  intros tr [tag_type block_var] _.
  destruct (String.eqb tag_type INCLUDE_TAG).
  { unfold _ExpandInclude.
    destruct (nothing_opens (RESOURCE_PATH C)
                (os_sep C ++ replace "/" (os_sep C) block_var)) as [e ->].
    destruct e; try apply terminates_some.
    apply terminates_bind; [apply terminates_some |].
    intros tr' r [= _ <-]. apply He. }
  destruct (String.eqb tag_type IF_TAG).
  { apply terminates_bind; [apply terminates_some |]. intros tr' v _.
    destruct (truthy v); [apply He | apply terminates_some]. }
  destruct (String.eqb tag_type FOR_TAG); [| apply terminates_some].
  apply terminates_bind; [apply terminates_some |]. intros tr' v _.
  unfold _ExpandFor.
  destruct (isMapping v); [| destruct (isSequence v)];
    try apply terminates_some;
    (apply terminates_bind; [| intros tr'' r _; apply terminates_some]);
    apply for_append_terminates; intros x;
    (apply terminates_bind; [apply terminates_some | intros tr'' a _; apply He]).
Qed.

Lemma _ExpandBlocks_loop_terminates specials params name (bound : nat) :
  forall result rest,
    (forall t sp pa na,
        String.length t < String.length rest -> terminates (expand t sp pa na)) ->
    terminates (_ExpandBlocks_loop C expand bound specials params name
                                   result rest).
Proof.
  induction bound as [|bound IH]; intros result rest He;
    cbn [_ExpandBlocks_loop].
  - apply terminates_some.
  - destruct (String.eqb_spec rest EmptyString) as [|Hne];
      [apply terminates_some |].
    destruct (_FindTag rest BLOCK_OPEN BLOCK_CLOSE) as [[[tag bt] at_]|] eqn:Ef;
      [| apply terminates_some].
    apply _FindTag_bounds in Ef as [Hb Ha]. change (len BLOCK_CLOSE) with 2%Z in Ha.
    set (end_tag := END_BLOCK_OPEN ++ tag ++ BLOCK_CLOSE).
    destruct (Z.ltb_spec (find rest end_tag at_) 0) as [|Hfe];
      [apply terminates_some |].
    apply terminates_bind.
    + apply _ExpandBlock_terminates. intros sp pa na. apply He.
      apply length_slice; [lia | exact Hne].
    + intros tr b _. apply IH. intros t sp pa na Ht. apply He.
      assert (String.length (slice_from rest (find rest end_tag at_ + len end_tag))
              < String.length rest); [| lia].
      apply length_slice_from; [| exact Hne].
      pose proof (len_nonneg end_tag).
      assert (3 <= len end_tag)%Z; [| lia].
      pose proof (len_nonneg (tag ++ BLOCK_CLOSE)).
      unfold end_tag, END_BLOCK_OPEN. rewrite len_append.
      change (len "[[/") with 3%Z. lia.
Qed.

End NoResources.

(** Where no resource opens, a template is expanded within a recursion
    depth of its length: every block body is shorter than the text
    around it. *)
Lemma ExpandTemplate_terminates (C : Collaborators) :
  (forall location filename,
      exists e, gruyere_Open C location filename = Raise e) ->
  forall fuel template specials params name,
    String.length template < fuel ->
    terminates (ExpandTemplate C fuel template specials params name).
Proof.
  intros Hno. induction fuel as [|fuel IH];
    intros template specials params name Hlen; [lia |].
  cbn [ExpandTemplate].
  apply terminates_bind; [| intros tr t _; apply terminates_some].
  apply _ExpandBlocks_loop_terminates; [exact Hno |].
  intros t sp pa na Ht. apply IH. lia.
Qed.

(** ** Where path resolution does return *)

Lemma get_in_range (s : string) (n : nat) :
  n < String.length s -> exists c, String.get n s = Some c.
Proof.
  revert n; induction s as [|x s IH]; intros n H; cbn [String.length] in H;
    [lia |].
  destruct n as [|n]; cbn [String.get]; [now exists x | apply IH; lia].
Qed.

Lemma getitem_int_in_range (v : Value) (i : Z) :
  isSequence v = true -> (0 <= i < length_of v)%Z ->
  exists x, getitem_int v i = Ok x.
Proof.
  intros Hs Hi. unfold getitem_int.
  destruct (Z.ltb_spec i 0); [lia |].
  destruct (Z.leb_spec (length_of v) i); [lia |]. cbn [orb].
  destruct v as [| | |s| |l]; try discriminate; cbn [length_of] in Hi.
  - destruct (get_in_range s (Z.to_nat i)) as [c ->]; [unfold len in Hi; lia |].
    now eexists.
  - destruct (nth_error l (Z.to_nat i)) as [x|] eqn:E; [now eexists |].
    apply nth_error_None in E. lia.
Qed.

(** [_GetValue] returns, the value found or the default, for every
    collection and every index whose digits, if it is made of digits, are
    ASCII digits. *)
Lemma _GetValue_returns (collection : Value) (index : string) (default : Value) :
  (isdigit index = true -> forallb_str is_ascii_digit index = true) ->
  exists v, _GetValue collection index default = Ok v.
Proof.
  intros Hd. unfold _GetValue.
  destruct (isMapping collection && contains collection index) eqn:Em.
  - apply andb_prop in Em as [Hm Hc].
    destruct collection; try discriminate. cbn [contains getitem_key] in *.
    destruct (lookup index kvs); [now eexists | discriminate].
  - destruct (isSequence collection) eqn:Es; cbn [andb]; [| now eexists].
    destruct (isdigit index) eqn:Ei; [| now eexists].
    unfold int_of_digits. rewrite (Hd eq_refl).
    destruct (Z.ltb_spec (Z.of_N (digits_value 0 index)) (length_of collection));
      [| now eexists].
    apply getitem_int_in_range; [exact Es | lia].
Qed.

(** A key that is missing, an index that is out of range, and a value
    that is neither a mapping nor a sequence give the default. *)
Lemma _GetValue_default (default : Value) :
  (forall kvs index,
      lookup index kvs = None -> _GetValue (VDict kvs) index default = Ok default)
  /\ (forall l index i,
         isdigit index = true -> int_of_digits index = Some i ->
         (Z.of_nat (List.length l) <= i)%Z ->
         _GetValue (VList l) index default = Ok default)
  /\ (forall l index,
         isdigit index = false -> _GetValue (VList l) index default = Ok default)
  /\ (forall index,
         _GetValue VNone index default = Ok default
         /\ (forall b, _GetValue (VBool b) index default = Ok default)
         /\ (forall z, _GetValue (VInt z) index default = Ok default)).
Proof.
  repeat split.
  - intros kvs index H. unfold _GetValue. cbn [isMapping contains isSequence andb].
    now rewrite H.
  - intros l index i Hd Hi Hle. unfold _GetValue.
    cbn [isMapping isSequence andb length_of]. rewrite Hd, Hi.
    destruct (Z.ltb_spec i (Z.of_nat (List.length l))); [lia | reflexivity].
  - intros l index Hd. unfold _GetValue. cbn [isMapping isSequence andb].
    now rewrite Hd.
Qed.

(** A path none of whose fields starts with '*', and whose numeric
    fields are written with ASCII digits, resolves to a value. *)
Lemma _ExpandValue_returns
      (specials : list (string * Value)) (params : Value) (name : string)
      (var : string) (default : Value) :
  Forall (fun field =>
            startswith field "*" = false
            /\ (isdigit field = true -> forallb_str is_ascii_digit field = true))
         (split "." var) ->
  exists v, _ExpandValue specials params name var default = Ok v.
Proof.
  intros H. unfold _ExpandValue.
  destruct (String.eqb var "_key"); [now eexists |].
  destruct (String.eqb var "_this"); [now eexists |].
  generalize (if startswith var "_" then VDict specials else params).
  induction H as [|field fields [Hstar Hdig] _ IH]; intros value;
    cbn [_ExpandValue_loop]; [now eexists |].
  unfold _ExpandValue_step.
  destruct (String.eqb_spec field "*_this") as [->|_]; [discriminate |].
  rewrite Hstar. cbn [bindR str].
  destruct (_GetValue_returns value field default Hdig) as [v ->].
  cbn [bindR]. apply IH.
Qed.

(** * Further properties of the expander *)

(** ** First occurrences, read backwards *)

Lemma prefix_append_mono (a x y : string) :
  String.prefix a x = true -> String.prefix a (x ++ y) = true.
Proof.
  intros H. rewrite prefix_append_le; [exact H | now apply prefix_length].
Qed.

Lemma prefix_split (a s : string) :
  String.prefix a s = true -> s = a ++ drop (String.length a) s.
Proof.
  revert s; induction a as [|c a IH]; intros s H.
  - now rewrite drop_zero.
  - destruct s as [|d s]; [discriminate |]. cbn [String.prefix] in H.
    destruct (ascii_dec c d) as [->|]; [| discriminate].
    cbn [append String.length drop]. f_equal. now apply IH.
Qed.

(** Where [find_nat] finds [sub], [sub] is. *)
Lemma find_nat_occurs (sub s : string) (i : nat) :
  find_nat sub s = Some i ->
  s = take i s ++ sub ++ drop (i + String.length sub) s.
Proof.
  revert i; induction s as [|c s IH]; intros i; cbn [find_nat].
  - destruct (String.prefix sub EmptyString) eqn:E; [| discriminate].
    intros [= <-]. cbn [take append plus]. now apply prefix_split.
  - destruct (String.prefix sub (String c s)) eqn:E.
    + intros [= <-]. cbn [take append plus]. now apply prefix_split.
    + destruct (find_nat sub s) as [j|] eqn:Ej; [| discriminate].
      intros [= <-]. cbn [take append plus drop]. f_equal. now apply IH.
Qed.

Lemma find_nat_short (sub u : string) :
  String.length u < String.length sub -> find_nat sub u = None.
Proof.
  induction u as [|c u IH]; intros H; cbn [find_nat].
  - destruct (String.prefix sub EmptyString) eqn:E; [| reflexivity].
    apply prefix_length in E. lia.
  - destruct (String.prefix sub (String c u)) eqn:E.
    + apply prefix_length in E. lia.
    + rewrite IH; [reflexivity | cbn [String.length] in H; lia].
Qed.

(** Before the place where [find_nat] finds [sub], no [sub] starts. *)
Lemma find_nat_is_first (init : string) (c : ascii) (s : string) (i : nat) :
  find_nat (init ++ String c EmptyString) s = Some i ->
  find_nat (init ++ String c EmptyString) (take i s ++ init) = None.
Proof.
  set (sub := init ++ String c EmptyString).
  assert (Hlen : String.length init < String.length sub)
    by (unfold sub; rewrite length_append; cbn [String.length]; lia).
  revert i; induction s as [|x s IH]; intros i H.
  - pose proof (find_nat_bound _ _ _ H) as Hb. cbn [String.length] in Hb.
    replace i with 0 by lia. cbn [take append]. now apply find_nat_short.
  - cbn [find_nat] in H.
    destruct (String.prefix sub (String x s)) eqn:E.
    + injection H as <-. cbn [take append]. now apply find_nat_short.
    + destruct (find_nat sub s) as [j|] eqn:Ej; [| discriminate].
      injection H as <-. cbn [take append find_nat].
      rewrite (IH j eq_refl).
      destruct (String.prefix sub (String x (take j s ++ init))) eqn:E';
        [| reflexivity].
      exfalso.
      pose proof (find_nat_occurs _ _ _ Ej) as Hs.
      assert (Hx : String x s
                   = String x (take j s ++ init)
                       ++ String c (drop (j + String.length sub) s)).
      { cbn [append]. f_equal. rewrite Hs at 1. unfold sub.
        now rewrite !append_assoc. }
      rewrite Hx in E.
      rewrite (prefix_append_mono _ _ _ E') in E. discriminate.
Qed.

(** [find] from a start inside the string answers at or after it. *)
Lemma find_at_or_after (s sub : string) (start : Z) :
  (0 <= start)%Z -> (0 <= find s sub start)%Z ->
  (start <= find s sub start)%Z.
Proof.
  intros Hs. unfold find.
  destruct (Z.ltb_spec start 0); [lia |].
  destruct (Z.ltb_spec (len s) start); [lia |].
  destruct (find_nat sub (drop (Z.to_nat start) s)); lia.
Qed.

(** ** What [_FindTag] finds *)

(** X1: the third test of [_FindTag], [open_pos > close_pos], never
    decides: the close marker is searched from [open_pos] on, so a close
    position that is found is never before the open position.  [_FindTag]
    finds no tag exactly when the open marker does not occur, or the
    close marker does not occur at or after it. *)
Theorem _FindTag_none_iff (template open_marker close_marker : string) :
  _FindTag template open_marker close_marker = None
  <-> (find template open_marker 0 < 0
       \/ find template close_marker (find template open_marker 0) < 0)%Z.
Proof.
  unfold _FindTag.
  set (open_pos := find template open_marker 0).
  set (close_pos := find template close_marker open_pos).
  destruct (Z.ltb_spec open_pos 0) as [Ho|Ho]; cbn [orb];
    [split; [now left | reflexivity] |].
  destruct (Z.ltb_spec close_pos 0) as [Hc|Hc]; cbn [orb];
    [split; [now right | reflexivity] |].
  pose proof (find_at_or_after template close_marker open_pos Ho Hc) as Hge.
  fold close_pos in Hge.
  destruct (Z.ltb_spec close_pos open_pos); [lia |].
  split; [discriminate | intros [?|?]; lia].
Qed.

Lemma find_nat_skip_two (x y : ascii) (r : string) :
  x <> y ->
  find_nat (String y (String y EmptyString)) (String x (String x r))
  = option_map S (option_map S (find_nat (String y (String y EmptyString)) r)).
Proof.
  intros Hxy. cbn [find_nat String.prefix].
  destruct (ascii_dec y x) as [E|_]; [now subst |]. reflexivity.
Qed.

(** X2: what [_FindTag] returns for a pair of doubled markers, such as
    "[[" and "]]" or "{{" and "}}": the template is the text before the
    tag, the open marker, the tag, the close marker and the text after
    it; the two positions are those of the open marker and of the end of
    the close marker; no open marker starts before the one found, and no
    close marker starts inside the tag. *)
Theorem _FindTag_sound (x y : ascii) (template tag : string) (before after : Z) :
  x <> y ->
  _FindTag template (String x (String x EmptyString))
           (String y (String y EmptyString))
  = Some (tag, before, after) ->
  exists pre post,
    template = pre ++ String x (String x EmptyString) ++ tag
                   ++ String y (String y EmptyString) ++ post
    /\ before = len pre
    /\ after = (len pre + 2 + len tag + 2)%Z
    /\ no_occurrence (String x (String x EmptyString))
                     (pre ++ String x EmptyString) = true
    /\ no_occurrence (String y (String y EmptyString))
                     (tag ++ String y EmptyString) = true.
Proof.
  intros Hxy H.
  set (xx := String x (String x EmptyString)) in *.
  set (yy := String y (String y EmptyString)) in *.
  destruct (find_nat xx template) as [i|] eqn:Ei.
  2:{ unfold _FindTag in H. rewrite find_from_start, Ei in H.
      cbn in H. discriminate. }
  pose proof (find_nat_occurs _ _ _ Ei) as Ht.
  pose proof (find_nat_is_first (String x EmptyString) x _ _ Ei) as Hno.
  pose proof (find_nat_bound _ _ _ Ei) as Hi.
  change (String x EmptyString ++ String x EmptyString) with xx in Hno.
  set (pre := take i template) in *.
  set (r := drop (i + String.length xx) template) in *.
  clearbody pre r. clear Ei Hi i. subst template.
  destruct (find_nat yy r) as [k|] eqn:Ek.
  - pose proof (find_nat_occurs _ _ _ Ek) as Hr.
    pose proof (find_nat_is_first (String y EmptyString) y _ _ Ek) as Hnc.
    change (String y EmptyString ++ String y EmptyString) with yy in Hnc.
    set (tag' := take k r) in *.
    set (post := drop (k + String.length yy) r) in *.
    clearbody tag' post. clear Ek k. subst r.
    pose proof (_FindTag_at (String x EmptyString) (String y EmptyString)
                            x y pre tag' post) as Hat.
    change (String x EmptyString ++ String x EmptyString) with xx in Hat.
    change (String y EmptyString ++ String y EmptyString) with yy in Hat.
    rewrite Hat in H.
    + injection H as <- <- <-. exists pre, post.
      unfold no_occurrence. rewrite Hno, Hnc.
      repeat split.
    + exact Hno.
    + unfold xx at 1. cbn [append]. unfold yy at 1.
      rewrite (find_nat_skip_two x y _ Hxy). fold yy. now rewrite Hnc.
  - exfalso.
    assert (E1 : find (pre ++ xx ++ r) xx 0 = len pre).
    { rewrite find_from_start.
      pose proof (find_nat_first (String x EmptyString) x pre r Hno) as F.
      change (String x EmptyString ++ String x EmptyString) with xx in F.
      now rewrite F. }
    assert (E2 : find (pre ++ xx ++ r) yy (len pre) = (-1)%Z).
    { rewrite find_from. unfold xx at 1. cbn [append]. unfold yy at 1.
      rewrite (find_nat_skip_two x y _ Hxy). fold yy. now rewrite Ek. }
    unfold _FindTag in H. rewrite E1, E2 in H.
    destruct (len pre <? 0)%Z; discriminate.
Qed.

Lemma _FindTag_sound_witness :
  exists pre post,
    "a{{b}}c}}" = pre ++ "{{" ++ "b" ++ "}}" ++ post
    /\ 1%Z = len pre
    /\ 6%Z = (len pre + 2 + len "b" + 2)%Z
    /\ no_occurrence "{{" (pre ++ "{") = true
    /\ no_occurrence "}}" ("b" ++ "}") = true.
Proof.
  apply (_FindTag_sound "{" "}" "a{{b}}c}}" "b" 1 6);
    [discriminate | reflexivity].
Defined.

(** ** One turn of the variable pass *)

Lemma _FindTag_doubled (x y : ascii) (pre tag tail : string) :
  x <> y ->
  no_occurrence (String x (String x EmptyString)) (pre ++ String x EmptyString)
  = true ->
  no_occurrence (String y (String y EmptyString)) (tag ++ String y EmptyString)
  = true ->
  _FindTag (pre ++ String x (String x EmptyString) ++ tag
                ++ String y (String y EmptyString) ++ tail)
           (String x (String x EmptyString)) (String y (String y EmptyString))
  = Some (tag, len pre, (len pre + 2 + len tag + 2)%Z).
Proof.
  intros Hxy Ho Hc. apply no_occurrence_true in Ho, Hc.
  apply (_FindTag_at (String x EmptyString) (String y EmptyString) x y
                     pre tag tail Ho).
  cbn [append]. rewrite (find_nat_skip_two x y _ Hxy). now rewrite Hc.
Qed.

Lemma _FindTag_no_open (template open_marker close_marker : string) :
  no_occurrence open_marker template = true ->
  _FindTag template open_marker close_marker = None.
Proof.
  intros H. apply no_occurrence_true in H.
  unfold _FindTag. now rewrite find_from_start, H.
Qed.

Section VariableStep.

Variable specials : list (string * Value).
Variable params : Value.
Variable name : string.
Variable C : Collaborators.

Lemma _ExpandVariables_no_open (template : string) :
  no_occurrence VAR_OPEN template = true ->
  _ExpandVariables specials params name C template = Ok template.
Proof.
  intros H. unfold _ExpandVariables.
  destruct (String.length template) eqn:E; cbn [_ExpandVariables_loop].
  - reflexivity.
  - destruct (String.eqb template EmptyString); [reflexivity |].
    now rewrite (_FindTag_no_open _ _ _ H).
Qed.

(** The variable pass on a template whose first tag is [tag]: the value
    is spliced between the text before the tag and the expansion of the
    text after it. *)
Lemma _ExpandVariables_var (pre tag post : string) :
  no_occurrence VAR_OPEN (pre ++ "{") = true ->
  no_occurrence VAR_CLOSE (tag ++ "}") = true ->
  _ExpandVariables specials params name C
                   (pre ++ VAR_OPEN ++ tag ++ VAR_CLOSE ++ post)
  = (v <~ _ExpandVariable specials params name C tag ;;
     r <~ _ExpandVariables specials params name C post ;;
     Ok (pre ++ str v ++ r)).
Proof.
  intros Ho Hc.
  set (T := pre ++ VAR_OPEN ++ tag ++ VAR_CLOSE ++ post).
  set (head := pre ++ VAR_OPEN ++ tag ++ VAR_CLOSE).
  assert (ET : T = head ++ post)
    by (unfold T, head; now rewrite !append_assoc).
  assert (Hh : (len pre + 2 + len tag + 2)%Z = len head).
  { unfold head. rewrite !len_append.
    change (len VAR_OPEN) with 2%Z. change (len VAR_CLOSE) with 2%Z. lia. }
  unfold _ExpandVariables.
  assert (Hlen : String.length post < String.length T).
  { rewrite ET. unfold head, VAR_OPEN. rewrite !length_append.
    cbn [String.length]. lia. }
  destruct (String.length T) as [|n] eqn:En; [lia |].
  cbn [_ExpandVariables_loop].
  destruct (String.eqb_spec T EmptyString) as [E0|_];
    [rewrite E0 in En; discriminate |].
  unfold T at 1. unfold VAR_OPEN, VAR_CLOSE.
  rewrite (_FindTag_doubled "{" "}" pre tag post);
    [| discriminate | exact Ho | exact Hc].
  destruct (_ExpandVariable specials params name C tag) as [v|e];
    [| reflexivity].
  cbn [bindR]. rewrite Hh.
  replace (slice_to T (len pre)) with pre
    by (unfold T; symmetry; apply slice_to_append).
  replace (slice_from T (len head)) with post
    by (rewrite ET; symmetry; apply slice_from_append).
  rewrite (_ExpandVariables_loop_bound _ _ _ _ n (String.length post)) by lia.
  rewrite _ExpandVariables_loop_result.
  fold (_ExpandVariables specials params name C post).
  destruct (_ExpandVariables specials params name C post) as [r|e];
    [| reflexivity].
  cbn [bindR app concat fold_right]. now rewrite append_empty_r, append_assoc.
Qed.

End VariableStep.

Lemma _ExpandBlocks_no_open (C : Collaborators) expand template specials params name :
  no_occurrence BLOCK_OPEN template = true ->
  _ExpandBlocks C expand template specials params name = ret template.
Proof.
  intros H. unfold _ExpandBlocks.
  destruct (String.length template) eqn:E; cbn [_ExpandBlocks_loop].
  - reflexivity.
  - destruct (String.eqb template EmptyString); [reflexivity |].
    now rewrite (_FindTag_no_open _ _ _ H).
Qed.

(** ** Templates without blocks *)

(** X3: a template in which no "[[" occurs is expanded by the variable
    pass alone: no block is expanded, nothing is logged or opened, and
    one unit of fuel is enough; if no "{{" occurs either, the template is
    returned as it is. *)
Theorem block_free_template
        (C : Collaborators) (fuel : nat) (template : string)
        (specials : list (string * Value)) (params : Value) (name : string) :
  no_occurrence BLOCK_OPEN template = true ->
  ExpandTemplate C (S fuel) template specials params name
  = ([], Some (_ExpandVariables specials params name C template))
  /\ (no_occurrence VAR_OPEN template = true ->
      ExpandTemplate C (S fuel) template specials params name
      = ([], Some (Ok template))).
Proof.
  intros Hb.
  assert (E : ExpandTemplate C (S fuel) template specials params name
              = ([], Some (_ExpandVariables specials params name C template))).
  { cbn [ExpandTemplate]. now rewrite (_ExpandBlocks_no_open _ _ _ _ _ _ Hb). }
  split; [exact E |].
  intros Hv. now rewrite E, (_ExpandVariables_no_open _ _ _ _ _ Hv).
Qed.

Lemma block_free_template_witness :
  ExpandTemplate no_files 1 "Hello, {{who}}]]" [] (VDict [("who", VStr "[[x]]")])
                 EmptyString
  = ([], Some (_ExpandVariables [] (VDict [("who", VStr "[[x]]")]) EmptyString
                                no_files "Hello, {{who}}]]"))
  /\ (no_occurrence VAR_OPEN "Hello, {{who}}]]" = true ->
      ExpandTemplate no_files 1 "Hello, {{who}}]]" []
                     (VDict [("who", VStr "[[x]]")]) EmptyString
      = ([], Some (Ok "Hello, {{who}}]]"))).
Proof.
  apply (block_free_template no_files 0 "Hello, {{who}}]]" []
           (VDict [("who", VStr "[[x]]")]) EmptyString).
  reflexivity.
Defined.

(** X4: the value of a variable tag is spliced as it is: in a template
    without blocks, written text, {{tag}}, text, the result is the text
    before the tag, the string of the value, and the variable pass of the
    text after the tag.  Whatever the value holds, markers included, is
    not scanned. *)
Theorem variable_value_is_not_scanned
        (C : Collaborators) (fuel : nat)
        (specials : list (string * Value)) (params : Value) (name : string)
        (pre tag post : string) (v : Value) :
  no_occurrence BLOCK_OPEN (pre ++ VAR_OPEN ++ tag ++ VAR_CLOSE ++ post) = true ->
  no_occurrence VAR_OPEN (pre ++ "{") = true ->
  no_occurrence VAR_CLOSE (tag ++ "}") = true ->
  _ExpandVariable specials params name C tag = Ok v ->
  ExpandTemplate C (S fuel) (pre ++ VAR_OPEN ++ tag ++ VAR_CLOSE ++ post)
                 specials params name
  = ([], Some (r <~ _ExpandVariables specials params name C post ;;
               Ok (pre ++ str v ++ r))).
Proof.
  intros Hb Ho Hc Hv. cbn [ExpandTemplate].
  rewrite (_ExpandBlocks_no_open _ _ _ _ _ _ Hb).
  rewrite bind_ret_l. unfold lift.
  now rewrite (_ExpandVariables_var _ _ _ _ _ _ _ Ho Hc), Hv.
Qed.

Lemma variable_value_is_not_scanned_witness :
  ExpandTemplate no_files 1 ("<" ++ VAR_OPEN ++ "a" ++ VAR_CLOSE ++ "|{{b}}>") []
                 (VDict [("a", VStr "{{b}}[[if:b]]"); ("b", VInt 2)]) EmptyString
  = ([], Some (r <~ _ExpandVariables [] (VDict [("a", VStr "{{b}}[[if:b]]");
                                                ("b", VInt 2)])
                                     EmptyString no_files "|{{b}}>" ;;
               Ok ("<" ++ str (VStr "{{b}}[[if:b]]") ++ r))).
Proof.
  apply (variable_value_is_not_scanned no_files 0 []
           (VDict [("a", VStr "{{b}}[[if:b]]"); ("b", VInt 2)]) EmptyString
           "<" "a" "|{{b}}>" (VStr "{{b}}[[if:b]]")); reflexivity.
Defined.

(** X5: a variable tag that is opened and not closed ends the variable
    pass: when no "}}" occurs after the first "{{", the template is
    returned as it is, the "{{" included. *)
Theorem unclosed_variable_tag_is_literal
        (specials : list (string * Value)) (params : Value) (name : string)
        (C : Collaborators) (pre tail : string) :
  no_occurrence VAR_OPEN (pre ++ "{") = true ->
  no_occurrence VAR_CLOSE tail = true ->
  _ExpandVariables specials params name C (pre ++ VAR_OPEN ++ tail)
  = Ok (pre ++ VAR_OPEN ++ tail).
Proof.
  intros Ho Hc. apply no_occurrence_true in Ho, Hc.
  assert (F : _FindTag (pre ++ VAR_OPEN ++ tail) VAR_OPEN VAR_CLOSE = None).
  { apply _FindTag_none_iff. right.
    assert (E1 : find (pre ++ VAR_OPEN ++ tail) VAR_OPEN 0 = len pre).
    { rewrite find_from_start.
      pose proof (find_nat_first "{" "{" pre tail Ho) as F.
      cbn [append] in F. cbn [VAR_OPEN append]. unfold VAR_OPEN.
      now rewrite F. }
    rewrite E1, find_from. unfold VAR_OPEN, VAR_CLOSE. cbn [append].
    rewrite (find_nat_skip_two "{" "}" tail) by discriminate.
    unfold VAR_CLOSE in Hc. rewrite Hc. reflexivity. }
  unfold _ExpandVariables.
  destruct (String.length (pre ++ VAR_OPEN ++ tail)); cbn [_ExpandVariables_loop];
    [reflexivity |].
  destruct (String.eqb _ EmptyString); [reflexivity |].
  now rewrite F.
Qed.

Lemma unclosed_variable_tag_witness :
  _ExpandVariables [] (VDict [("a", VInt 1)]) EmptyString no_files
                   ("x}}y" ++ VAR_OPEN ++ "a} }z")
  = Ok ("x}}y" ++ VAR_OPEN ++ "a} }z").
Proof.
  apply (unclosed_variable_tag_is_literal [] (VDict [("a", VInt 1)]) EmptyString
           no_files "x}}y" "a} }z"); reflexivity.
Defined.

(** X6: a comment tag, "{{#" up to the next "}}", is replaced by
    nothing, whatever it holds: the result is the text before it and the
    variable pass of the text after it. *)
Theorem comment_tag_vanishes
        (specials : list (string * Value)) (params : Value) (name : string)
        (C : Collaborators) (pre comment post : string) :
  no_occurrence VAR_OPEN (pre ++ "{") = true ->
  no_occurrence VAR_CLOSE (("#" ++ comment) ++ "}") = true ->
  _ExpandVariables specials params name C
                   (pre ++ VAR_OPEN ++ ("#" ++ comment) ++ VAR_CLOSE ++ post)
  = (r <~ _ExpandVariables specials params name C post ;; Ok (pre ++ r)).
Proof.
  intros Ho Hc.
  rewrite (_ExpandVariables_var _ _ _ _ _ _ _ Ho Hc).
  unfold _ExpandVariable. cbn [append].
  change (startswith (String "#" comment) "#")
    with (String.prefix EmptyString comment).
  rewrite prefix_empty. reflexivity.
Qed.

Lemma comment_tag_vanishes_witness :
  _ExpandVariables [] VNone EmptyString no_files
                   ("a" ++ VAR_OPEN ++ ("#" ++ " *x:pprint {{ ") ++ VAR_CLOSE ++ "b")
  = (r <~ _ExpandVariables [] VNone EmptyString no_files "b" ;; Ok ("a" ++ r)).
Proof.
  apply (comment_tag_vanishes [] VNone EmptyString no_files
           "a" " *x:pprint {{ " "b"); reflexivity.
Defined.

(** ** Blocks of other kinds *)

Lemma get_list_ascii (s : string) (i : nat) :
  nth_error (list_ascii_of_string s) i = String.get i s.
Proof.
  revert i; induction s as [|c s IH]; intros [|i]; cbn; auto.
Qed.

Lemma length_list_ascii (s : string) :
  List.length (list_ascii_of_string s) = String.length s.
Proof.
  induction s as [|c s IH]; cbn; auto.
Qed.

Lemma length_items_of (v : Value) :
  isSequence v = true -> length_of v = Z.of_nat (List.length (items_of v)).
Proof.
  destruct v; try discriminate; intros _; cbn [length_of items_of].
  - unfold len. now rewrite length_map, length_list_ascii.
  - reflexivity.
Qed.

(** Indexing a sequence reads its items. *)
Lemma getitem_int_items (v : Value) (i : nat) (x : Value) :
  isSequence v = true ->
  nth_error (items_of v) i = Some x ->
  getitem_int v (Z.of_nat i) = Ok x.
Proof.
  intros Hs Hn.
  assert (Hi : i < List.length (items_of v))
    by (apply nth_error_Some; congruence).
  unfold getitem_int. rewrite (length_items_of v Hs).
  destruct (Z.ltb_spec (Z.of_nat i) 0); [lia |].
  destruct (Z.leb_spec (Z.of_nat (List.length (items_of v))) (Z.of_nat i));
    [lia |].
  cbn [orb]. rewrite Nat2Z.id.
  destruct v; try discriminate; cbn [items_of] in Hn.
  - rewrite nth_error_map, get_list_ascii in Hn.
    destruct (String.get i s); [| discriminate].
    cbn in Hn. now injection Hn as <-.
  - now rewrite Hn.
Qed.

Lemma mapM_getitem (v : Value) (f : Value -> nat -> M string) :
  isSequence v = true ->
  forall l done,
    items_of v = (done ++ l)%list ->
    mapM (fun i => item <- lift (getitem_int v (Z.of_nat i)) ;; f item i)
         (seq (List.length done) (List.length l))
    = mapM (fun p => f (snd p) (fst p))
           (combine (seq (List.length done) (List.length l)) l).
Proof.
  intros Hs. induction l as [|x l IH]; intros done Hd; [reflexivity |].
  cbn [List.length seq combine mapM fst snd].
  rewrite (getitem_int_items v (List.length done) x Hs)
    by (rewrite Hd, nth_error_app2, Nat.sub_diag; [reflexivity | apply le_n]).
  rewrite bind_lift_Ok. apply bind_ext. intros y.
  specialize (IH (done ++ [x])%list).
  rewrite length_app, Nat.add_1_r in IH.
  rewrite IH; [reflexivity |]. now rewrite <- app_assoc.
Qed.

Section OtherBlocks.

Variable C : Collaborators.
Variable expand :
  string -> list (string * Value) -> Value -> string -> M string.

Lemma _ExpandFor_sequence (tag body : string)
      (specials : list (string * Value)) (v : Value) :
  isSequence v = true ->
  _ExpandFor expand tag body specials v
  = (parts <- mapM (fun p => expand body specials (snd p) (str_of_nat (fst p)))
                   (enumerate (items_of v)) ;;
     ret (concat parts)).
Proof.
  intros Hs. unfold _ExpandFor.
  replace (isMapping v) with false by (destruct v; try discriminate; reflexivity).
  rewrite Hs, for_append_mapM, bind_assoc.
  rewrite (length_items_of v Hs), Nat2Z.id.
  pose proof (mapM_getitem v
                (fun item i => expand body specials item (str_of_nat i))
                Hs (items_of v) [] eq_refl) as E.
  cbn [List.length] in E. rewrite E. unfold enumerate.
  apply bind_ext. intros l. now rewrite bind_ret_l.
Qed.

End OtherBlocks.

(** X7: a closed block whose type is none of include, if, for is
    dropped: "Error: Invalid block: " followed by the tag is logged and
    the block contributes the empty string; its argument is not resolved
    and its body is not expanded. *)
Theorem unknown_block_type_is_dropped
        (C : Collaborators) (fuel : nat)
        (specials : list (string * Value)) (params : Value) (name : string)
        (pre type_ arg body post : string) :
  first_block pre (type_ ++ String ":" arg) body = true ->
  has_char ":" type_ = false ->
  String.eqb type_ INCLUDE_TAG = false ->
  String.eqb type_ IF_TAG = false ->
  String.eqb type_ FOR_TAG = false ->
  _ExpandBlocks C (ExpandTemplate C fuel)
                (pre ++ block_text (type_ ++ String ":" arg) body ++ post)
                specials params name
  = (_Log ("Error: Invalid block: " ++ type_ ++ String ":" arg) ;;;
     r <- _ExpandBlocks C (ExpandTemplate C fuel) post specials params name ;;
     ret (pre ++ r)).
Proof.
  intros Hfb Hc Hi Hf Hfo.
  rewrite (_ExpandBlocks_block _ _ _ _ _ _ _ _ _ Hfb).
  unfold _ExpandBlock. rewrite (split1_append _ _ _ Hc).
  cbn [unpack2]. rewrite bind_lift_Ok, Hi, Hf, Hfo.
  rewrite !bind_assoc. apply bind_ext. intros _. now rewrite bind_ret_l.
Qed.

Lemma unknown_block_type_witness :
  _ExpandBlocks no_files (ExpandTemplate no_files 0)
                ("a" ++ block_text ("else" ++ String ":" "*x") "{{y:pprint}}" ++ "b")
                [] VNone EmptyString
  = (_Log ("Error: Invalid block: " ++ "else" ++ String ":" "*x") ;;;
     r <- _ExpandBlocks no_files (ExpandTemplate no_files 0) "b" [] VNone
            EmptyString ;;
     ret ("a" ++ r)).
Proof.
  apply (unknown_block_type_is_dropped no_files 0 [] VNone EmptyString
           "a" "else" "*x" "{{y:pprint}}" "b"); reflexivity.
Defined.

(** X8: a [[for:expr]] block whose argument resolves to a sequence (a
    list, or a string, which is a sequence of its characters)
    contributes the concatenation, in index order, of the expansions of
    its body by [ExpandTemplate] with [params] bound to the item and
    [name] to the decimal index; nothing is logged for the block. *)
Theorem for_block_over_sequence
        (C : Collaborators) (fuel : nat)
        (specials : list (string * Value)) (params : Value) (name : string)
        (pre expr body post : string) (v : Value) :
  first_block pre ("for:" ++ expr) body = true ->
  _ExpandVariable specials params name C expr = Ok v ->
  isSequence v = true ->
  _ExpandBlocks C (ExpandTemplate C fuel)
                (pre ++ block_text ("for:" ++ expr) body ++ post)
                specials params name
  = (parts <- mapM (fun p => ExpandTemplate C fuel body specials (snd p)
                                            (str_of_nat (fst p)))
                   (enumerate (items_of v)) ;;
     r <- _ExpandBlocks C (ExpandTemplate C fuel) post specials params name ;;
     ret (pre ++ concat parts ++ r)).
Proof.
  intros Hfb Hv Hs.
  rewrite (_ExpandBlocks_block _ _ _ _ _ _ _ _ _ Hfb).
  rewrite _ExpandBlock_for, Hv, bind_lift_Ok.
  rewrite (_ExpandFor_sequence _ _ _ _ _ Hs).
  rewrite bind_assoc. apply bind_ext. intros parts. now rewrite bind_ret_l.
Qed.

Lemma for_block_over_sequence_witness :
  _ExpandBlocks no_files (ExpandTemplate no_files 1)
                ("<" ++ block_text ("for:" ++ "l") "{{_key}}:{{_this}};" ++ ">")
                [] (VDict [("l", VList [VStr "a"; VInt 7])]) EmptyString
  = ([], Some (Ok "<0:a;1:7;>")).
Proof.
  rewrite (for_block_over_sequence no_files 1 []
             (VDict [("l", VList [VStr "a"; VInt 7])]) EmptyString
             "<" "l" "{{_key}}:{{_this}};" ">" (VList [VStr "a"; VInt 7]));
    reflexivity.
Defined.

(** X9: a [[for:expr]] block over an empty collection contributes
    nothing and logs nothing; and so does one over a key that is missing
    from [params], which resolves to the default, the empty string. *)
Theorem for_block_over_nothing
        (C : Collaborators) (fuel : nat)
        (specials : list (string * Value)) (params : Value) (name : string)
        (pre expr body post : string) (v : Value) :
  first_block pre ("for:" ++ expr) body = true ->
  _ExpandVariable specials params name C expr = Ok v ->
  v = VStr EmptyString \/ v = VList [] \/ v = VDict [] ->
  _ExpandBlocks C (ExpandTemplate C fuel)
                (pre ++ block_text ("for:" ++ expr) body ++ post)
                specials params name
  = (r <- _ExpandBlocks C (ExpandTemplate C fuel) post specials params name ;;
     ret (pre ++ r)).
Proof.
  intros Hfb Hv Hempty.
  rewrite (_ExpandBlocks_block _ _ _ _ _ _ _ _ _ Hfb).
  rewrite _ExpandBlock_for, Hv, bind_lift_Ok.
  assert (E : _ExpandFor (ExpandTemplate C fuel) ("for:" ++ expr) body specials v
              = ret EmptyString)
    by (destruct Hempty as [-> | [-> | ->]]; reflexivity).
  now rewrite E, bind_ret_l.
Qed.

Lemma for_block_over_nothing_witness :
  _ExpandBlocks no_files (ExpandTemplate no_files 1)
                ("a" ++ block_text ("for:" ++ "missing") "{{_this}}" ++ "b")
                [] (VDict [("there", VInt 1)]) EmptyString
  = (r <- _ExpandBlocks no_files (ExpandTemplate no_files 1) "b" []
            (VDict [("there", VInt 1)]) EmptyString ;;
     ret ("a" ++ r)).
Proof.
  apply (for_block_over_nothing no_files 1 [] (VDict [("there", VInt 1)])
           EmptyString "a" "missing" "{{_this}}" "b" (VStr EmptyString));
    [reflexivity | reflexivity | left; reflexivity].
Defined.

(** ** How the two passes meet *)

(** X10: the content of a block goes through the variable pass twice.
    The body of an [[if:expr]] block with a truthy argument is expanded
    by [ExpandTemplate], blocks and variables, and the result is placed
    in the text on which the variable pass of the enclosing template
    then runs: a "{{" that a value brought into the body is read as a
    tag there. *)
Theorem block_content_is_scanned_again
        (C : Collaborators) (fuel : nat)
        (specials : list (string * Value)) (params : Value) (name : string)
        (pre expr body post : string) (v : Value) :
  first_block pre ("if:" ++ expr) body = true ->
  _ExpandVariable specials params name C expr = Ok v ->
  truthy v = true ->
  ExpandTemplate C (S fuel) (pre ++ block_text ("if:" ++ expr) body ++ post)
                 specials params name
  = (b <- ExpandTemplate C fuel body specials params name ;;
     r <- _ExpandBlocks C (ExpandTemplate C fuel) post specials params name ;;
     lift (_ExpandVariables specials params name C (pre ++ b ++ r))).
Proof.
  intros Hfb Hv Ht. cbn [ExpandTemplate].
  rewrite (_ExpandBlocks_block _ _ _ _ _ _ _ _ _ Hfb).
  rewrite _ExpandBlock_if, Hv, bind_lift_Ok, Ht.
  rewrite bind_assoc. apply bind_ext. intros b.
  rewrite bind_assoc. apply bind_ext. intros r.
  now rewrite bind_ret_l.
Qed.

Lemma block_content_is_scanned_again_witness :
  ExpandTemplate no_files 2 (EmptyString ++ block_text ("if:" ++ "a") "{{a}}" ++ "!")
                 [] (VDict [("a", VStr "{{b}}"); ("b", VStr "twice")]) EmptyString
  = ([], Some (Ok "twice!")).
Proof.
  rewrite (block_content_is_scanned_again no_files 1 []
             (VDict [("a", VStr "{{b}}"); ("b", VStr "twice")]) EmptyString
             EmptyString "a" "{{a}}" "!" (VStr "{{b}}"));
    reflexivity.
Defined.

(** ** The text escaper and negation *)

Lemma has_char_append (c : ascii) (a b : string) :
  has_char c (a ++ b) = has_char c a || has_char c b.
Proof.
  induction a as [|x a IH]; cbn [append has_char]; [reflexivity |].
  now rewrite IH, orb_assoc.
Qed.

(** What [html.escape] returns holds none of the four characters it
    replaces besides the ampersand. *)
Lemma html_escape_no_special (c : ascii) (s : string) :
  (c = "<" \/ c = ">" \/ c = dquote \/ c = "'")%char ->
  has_char c (html_escape s) = false.
Proof.
  intros Hc. induction s as [|x s IH]; cbn [html_escape]; [reflexivity |].
  rewrite has_char_append, IH, orb_false_r.
  destruct (Ascii.eqb_spec x "&");
    [destruct Hc as [->|[->|[->| ->]]]; reflexivity |].
  destruct (Ascii.eqb_spec x "<");
    [destruct Hc as [->|[->|[->| ->]]]; reflexivity |].
  destruct (Ascii.eqb_spec x ">");
    [destruct Hc as [->|[->|[->| ->]]]; reflexivity |].
  destruct (Ascii.eqb_spec x dquote);
    [destruct Hc as [->|[->|[->| ->]]]; reflexivity |].
  destruct (Ascii.eqb_spec x "'");
    [destruct Hc as [->|[->|[->| ->]]]; reflexivity |].
  cbn [has_char]. rewrite orb_false_r. apply Ascii.eqb_neq.
  destruct Hc as [->|[->|[->| ->]]]; assumption.
Qed.

(** X11: with the escaper text, an expression whose path resolves is
    resolved to the escaped string of the value: [html.escape] of
    [str(value)], taken after the negation and before None is replaced,
    a string in which none of '<', '>', the double quote and the single
    quote occurs.  So a path that resolves to None is written "None"
    with the escaper, where the expression without escaper gives the
    empty string. *)
Theorem text_escaper_output
        (specials : list (string * Value)) (params : Value) (name : string)
        (C : Collaborators) (var : string) (x : Value) :
  has_char ":" var = false ->
  startswith var "#" = false ->
  _ExpandValue specials params name
               (if startswith var "!" then slice_from var 1 else var)
               (VStr EmptyString)
  = Ok x ->
  let value := if startswith var "!" then VBool (negb (truthy x)) else x in
  _ExpandVariable specials params name C (var ++ ":text")
  = Ok (VStr (html_escape (str value)))
  /\ has_char "<" (html_escape (str value)) = false
  /\ has_char ">" (html_escape (str value)) = false
  /\ has_char dquote (html_escape (str value)) = false
  /\ has_char "'" (html_escape (str value)) = false
  /\ (startswith var "!" = false -> x = VNone ->
      _ExpandVariable specials params name C (var ++ ":text") = Ok (VStr "None")
      /\ _ExpandVariable specials params name C var = Ok (VStr EmptyString)).
Proof.
  intros Hc Hs Hx value.
  assert (E : _ExpandVariable specials params name C (var ++ ":text")
              = Ok (VStr (html_escape (str value)))).
  { change (var ++ ":text") with (var ++ String ":" "text").
    rewrite (_ExpandVariable_with_escaper _ _ _ _ _ _ Hc Hs).
    cbv zeta. now rewrite Hx. }
  split; [exact E |].
  repeat (split; [apply html_escape_no_special; auto |]).
  intros Hb ->. split.
  - rewrite E. unfold value. now rewrite Hb.
  - rewrite (_ExpandVariable_without_escaper _ _ _ _ _ Hc Hs).
    cbv zeta. rewrite Hx. now rewrite Hb.
Qed.

Lemma text_escaper_output_witness :
  let value := if startswith "n" "!" then VBool (negb (truthy VNone)) else VNone in
  _ExpandVariable [] (VDict [("n", VNone)]) EmptyString no_files ("n" ++ ":text")
  = Ok (VStr (html_escape (str value)))
  /\ has_char "<" (html_escape (str value)) = false
  /\ has_char ">" (html_escape (str value)) = false
  /\ has_char dquote (html_escape (str value)) = false
  /\ has_char "'" (html_escape (str value)) = false
  /\ (startswith "n" "!" = false -> VNone = VNone ->
      _ExpandVariable [] (VDict [("n", VNone)]) EmptyString no_files
                      ("n" ++ ":text") = Ok (VStr "None")
      /\ _ExpandVariable [] (VDict [("n", VNone)]) EmptyString no_files "n"
         = Ok (VStr EmptyString)).
Proof.
  apply (text_escaper_output [] (VDict [("n", VNone)]) EmptyString no_files
           "n" VNone); reflexivity.
Defined.

(** The escaper text on an angle-bracketed string, and on None. *)
Example text_escaper_examples :
  ExpandTemplate no_files 1 "{{n:text}}|{{m:text}}|{{m}}|" []
                 (VDict [("n", VStr "<b a='1'>&"); ("m", VNone)]) EmptyString
  = ([], Some (Ok "&lt;b a=&#x27;1&#x27;&gt;&amp;|None||")).
Proof. vm_compute. reflexivity. Qed.

(** X12: an expression that starts with '!' resolves to the boolean
    negation of the truth value of what the rest of it resolves to: a
    boolean, never the value itself; the variable pass writes it "True"
    or "False". *)
Theorem negated_expression_is_boolean
        (specials : list (string * Value)) (params : Value) (name : string)
        (C : Collaborators) (var : string) (v : Value) :
  has_char ":" var = false ->
  _ExpandValue specials params name var (VStr EmptyString) = Ok v ->
  _ExpandVariable specials params name C ("!" ++ var)
  = Ok (VBool (negb (truthy v)))
  /\ str (VBool (negb (truthy v))) = (if truthy v then "False" else "True").
Proof.
  intros Hc Hv. split; [| now destruct (truthy v)].
  rewrite _ExpandVariable_without_escaper; [| exact Hc | reflexivity].
  cbv zeta. change (startswith ("!" ++ var) "!") with (String.prefix EmptyString var).
  rewrite prefix_empty. cbn [append]. rewrite slice_from_cons, Hv. reflexivity.
Qed.

Lemma negated_expression_witness :
  _ExpandVariable [] (VDict [("l", VList [VInt 0])]) EmptyString no_files
                  ("!" ++ "l.0")
  = Ok (VBool (negb (truthy (VInt 0))))
  /\ str (VBool (negb (truthy (VInt 0))))
     = (if truthy (VInt 0) then "False" else "True").
Proof.
  apply (negated_expression_is_boolean [] (VDict [("l", VList [VInt 0])])
           EmptyString no_files "l.0" (VInt 0)); reflexivity.
Defined.

(** ** The depth of the recursion *)

(** X13: where no resource opens (every included template falls back on
    the body of its block), expansion ends: a recursion depth above the
    length of the template is enough for a result, a returned string or
    an exception, and every greater depth gives the same trace and
    result. *)
Theorem expansion_ends_without_resources
        (C : Collaborators) (fuel : nat) (template : string)
        (specials : list (string * Value)) (params : Value) (name : string) :
  (forall location filename,
      exists e, gruyere_Open C location filename = Raise e) ->
  String.length template < fuel ->
  exists tr r,
    ExpandTemplate C fuel template specials params name = (tr, Some r)
    /\ forall extra,
        ExpandTemplate C (fuel + extra) template specials params name
        = (tr, Some r).
Proof.
  intros Hno Hlen.
  pose proof (ExpandTemplate_terminates C Hno fuel template specials params
                                        name Hlen) as Ht.
  unfold terminates in Ht.
  destruct (ExpandTemplate C fuel template specials params name)
    as [tr [r|]] eqn:E; [| contradiction].
  exists tr, r. split; [reflexivity |].
  intros extra. now apply ExpandTemplate_fuel_more.
Qed.

Lemma expansion_ends_witness :
  exists tr r,
    ExpandTemplate no_files 50 "[[for:l]][[if:_this]]x[[/if:_this]][[/for:l]]"
                   [] (VDict [("l", VList [VInt 1])]) EmptyString
    = (tr, Some r)
    /\ forall extra,
        ExpandTemplate no_files (50 + extra)
                       "[[for:l]][[if:_this]]x[[/if:_this]][[/for:l]]"
                       [] (VDict [("l", VList [VInt 1])]) EmptyString
        = (tr, Some r).
Proof.
  apply (expansion_ends_without_resources no_files 50
           "[[for:l]][[if:_this]]x[[/if:_this]][[/for:l]]" []
           (VDict [("l", VList [VInt 1])]) EmptyString).
  - intros location filename. exists IOError. reflexivity.
  - cbn. lia.
Defined.

Lemma snd_bind_None {A B} (m : M A) (k : A -> M B) :
  snd m = None -> snd (bind m k) = None.
Proof.
  destruct m as [tr [r|]]; [discriminate | reflexivity].
Qed.

Lemma snd_emit_bind {B} (ev : event) (m : M B) :
  snd (emit ev ;;; m) = snd m.
Proof.
  unfold emit, bind. now destruct m.
Qed.

(** X14: a resource whose template includes the resource itself is
    never expanded to the end: at no recursion depth does [ExpandTemplate]
    return or raise on it; every level opens, reads and closes the
    resource and expands it again.  The expander has no bound of its
    own; the recursion limit of the interpreter is what ends it. *)
Theorem self_including_resource_never_ends
        (C : Collaborators) (path : string) (f : nat)
        (cpre cbody cpost : string) :
  gruyere_Open C (RESOURCE_PATH C) (os_sep C ++ replace "/" (os_sep C) path)
  = Ok f ->
  file_read C f = Ok (cpre ++ block_text ("include:" ++ path) cbody ++ cpost) ->
  first_block cpre ("include:" ++ path) cbody = true ->
  forall fuel specials params name,
    snd (ExpandTemplate C fuel
                        (cpre ++ block_text ("include:" ++ path) cbody ++ cpost)
                        specials params name)
    = None.
Proof.
  intros Ho Hr Hfb. induction fuel as [|fuel IH]; intros specials params name;
    [reflexivity |].
  cbn [ExpandTemplate].
  rewrite (_ExpandBlocks_block _ _ _ _ _ _ _ _ _ Hfb).
  rewrite _ExpandBlock_include. unfold _ExpandInclude. rewrite Ho, Hr.
  do 2 apply snd_bind_None.
  rewrite bind_assoc, snd_emit_bind, bind_assoc, snd_emit_bind, bind_ret_l.
  apply IH.
Qed.

Lemma self_including_resource_witness :
  snd (ExpandTemplate loop_file 7
         ("again " ++ block_text ("include:" ++ "loop.gtl") "x" ++ EmptyString)
         [] VNone EmptyString)
  = None.
Proof.
  apply (self_including_resource_never_ends loop_file "loop.gtl" 1
           "again " "x" EmptyString eq_refl eq_refl eq_refl 7 [] VNone
           EmptyString).
Defined.

(** ** Paths *)

(** X15: a path none of whose fields starts with '*', and whose numeric
    fields are written with ASCII digits, at most as many as [int]
    converts ([int_max_str_digits], 4300), never raises: whatever the
    context holds, [_ExpandValue] returns a value (the one found, or the
    default where a key is missing, an index is out of range or a value
    cannot be indexed), and [_ExpandVariable] returns it, with the empty
    string in place of None. *)
Theorem plain_path_never_raises
        (specials : list (string * Value)) (params : Value) (name : string)
        (C : Collaborators) (var : string) :
  has_char ":" var = false ->
  startswith var "#" = false ->
  startswith var "!" = false ->
  Forall (fun field =>
            startswith field "*" = false
            /\ (isdigit field = true ->
                forallb_str is_ascii_digit field = true
                /\ String.length field <= int_max_str_digits))
         (split "." var) ->
  exists v,
    _ExpandValue specials params name var (VStr EmptyString) = Ok v
    /\ _ExpandVariable specials params name C var
       = Ok (match v with VNone => VStr EmptyString | _ => v end).
Proof.
  intros Hc Hs Hb Hf.
  assert (Hf' : Forall (fun field =>
                          startswith field "*" = false
                          /\ (isdigit field = true ->
                              forallb_str is_ascii_digit field = true))
                       (split "." var)).
  { eapply Forall_impl; [| exact Hf]. intros field [Hstar Hd].
    split; [exact Hstar | intros H; apply (Hd H)]. }
  destruct (_ExpandValue_returns specials params name var (VStr EmptyString) Hf')
    as [v Hv].
  exists v. split; [exact Hv |].
  rewrite (_ExpandVariable_without_escaper _ _ _ _ _ Hc Hs), Hb.
  cbv beta iota zeta. now rewrite Hv.
Qed.

Lemma plain_path_never_raises_witness :
  exists v,
    _ExpandValue [] (VDict [("a", VList [VInt 1])]) EmptyString "a.7.b"
                 (VStr EmptyString) = Ok v
    /\ _ExpandVariable [] (VDict [("a", VList [VInt 1])]) EmptyString no_files
                       "a.7.b"
       = Ok (match v with VNone => VStr EmptyString | _ => v end).
Proof.
  apply (plain_path_never_raises [] (VDict [("a", VList [VInt 1])]) EmptyString
           no_files "a.7.b"); try reflexivity.
  change (split "." "a.7.b") with ["a"; "7"; "b"].
  constructor; [split; [reflexivity | intros H; discriminate H] |].
  constructor;
    [split; [reflexivity
            | intros _; split; [reflexivity | apply Nat.leb_le; reflexivity]] |].
  constructor; [split; [reflexivity | intros H; discriminate H] | constructor].
Defined.

Lemma _ExpandValue_loop_plain
      (specials : list (string * Value)) (params : Value)
      (default : Value) (fields : list string) :
  Forall (fun field => startswith field "*" = false) fields ->
  forall value,
    _ExpandValue_loop specials params default fields value
    = fold_left (fun r field => value <~ r ;; _GetValue value field default)
                fields (Ok value).
Proof.
  intros H. induction H as [|field fields Hstar _ IH]; intros value;
    cbn [_ExpandValue_loop fold_left]; [reflexivity |].
  unfold _ExpandValue_step.
  destruct (String.eqb_spec field "*_this") as [->|_]; [discriminate |].
  rewrite Hstar. cbn [bindR str].
  destruct (_GetValue value field default) as [v|e]; cbn [bindR].
  - apply IH.
  - clear. induction fields as [|x fields IHf]; [reflexivity | exact IHf].
Qed.

(** X16: without '*' fields a path reads one root only.  A path that
    starts with '_' (other than _key and _this) is resolved in [specials]
    and does not depend on [params] or [name]; any other path is
    resolved in [params] and does not depend on [specials] or [name].
    In particular a path such as _this.x does not read [params]. *)
Theorem plain_path_reads_one_root
        (specials specials' : list (string * Value)) (params params' : Value)
        (name name' : string) (var : string) (default : Value) :
  Forall (fun field => startswith field "*" = false) (split "." var) ->
  String.eqb var "_key" = false ->
  String.eqb var "_this" = false ->
  (startswith var "_" = true ->
   _ExpandValue specials params name var default
   = _ExpandValue specials params' name' var default)
  /\ (startswith var "_" = false ->
      _ExpandValue specials params name var default
      = _ExpandValue specials' params name' var default).
Proof.
  intros Hf Hk Ht. unfold _ExpandValue. rewrite Hk, Ht.
  split; intros ->; now rewrite !(_ExpandValue_loop_plain _ _ _ _ Hf).
Qed.

Lemma plain_path_reads_one_root_witness :
  (startswith "_this.x" "_" = true ->
   _ExpandValue [("_this", VDict [("x", VInt 1)])] (VDict [("x", VInt 2)])
                "k" "_this.x" (VStr EmptyString)
   = _ExpandValue [("_this", VDict [("x", VInt 1)])] VNone "j" "_this.x"
                  (VStr EmptyString))
  /\ (startswith "_this.x" "_" = false ->
      _ExpandValue [("_this", VDict [("x", VInt 1)])] (VDict [("x", VInt 2)])
                   "k" "_this.x" (VStr EmptyString)
      = _ExpandValue [] (VDict [("x", VInt 2)]) "j" "_this.x"
                     (VStr EmptyString)).
Proof.
  apply (plain_path_reads_one_root [("_this", VDict [("x", VInt 1)])] []
           (VDict [("x", VInt 2)]) VNone "k" "j" "_this.x" (VStr EmptyString));
    try reflexivity.
  repeat (constructor; [reflexivity |]). constructor.
Defined.

(** ** Decimal indices *)

(** Reading back the digits that [str] writes. *)
Lemma digits_value_revapp (d d' : Decimal.uint) :
  DecimalPos.Unsigned.of_lu (Decimal.revapp d d')
  = digits_value (DecimalPos.Unsigned.of_lu d') (NilEmpty.string_of_uint d).
Proof.
  revert d'; induction d as [|d IH|d IH|d IH|d IH|d IH|d IH|d IH|d IH|d IH|d IH];
    intros d'; cbn [Decimal.revapp NilEmpty.string_of_uint digits_value];
    [reflexivity | ..];
    rewrite IH; f_equal; cbn [DecimalPos.Unsigned.of_lu];
    match goal with
    | |- context [N_of_ascii ?c] =>
        let n := eval vm_compute in (N_of_ascii c) in
        change (N_of_ascii c) with n
    end; lia.
Qed.

Lemma digits_of_uint_are_ascii (d : Decimal.uint) :
  forallb_str is_ascii_digit (NilEmpty.string_of_uint d) = true.
Proof.
  induction d; cbn [NilEmpty.string_of_uint forallb_str]; try reflexivity;
    rewrite IHd; reflexivity.
Qed.

Lemma ascii_digits_are_digits (s : string) :
  forallb_str is_ascii_digit s = true -> forallb_str is_digit_char s = true.
Proof.
  induction s as [|c s IH]; cbn [forallb_str]; [reflexivity |].
  intros H. apply andb_prop in H as [Hc Hs].
  rewrite (IH Hs). unfold is_digit_char. now rewrite Hc.
Qed.

Lemma str_of_nat_digits (i : nat) :
  isdigit (str_of_nat i) = true
  /\ int_of_digits (str_of_nat i) = Some (Z.of_nat i).
Proof.
  unfold str_of_nat, str_of_Z.
  destruct (Z.of_nat i) as [|p|p] eqn:E; [split; reflexivity | | lia].
  cbn [Z.to_int NilZero.string_of_int].
  pose proof (DecimalPos.Unsigned.to_uint_nonnil p) as Hnn.
  pose proof (DecimalPos.Unsigned.of_to p) as Hof.
  rewrite DecimalPos.Unsigned.of_uint_alt in Hof. unfold Decimal.rev in Hof.
  rewrite digits_value_revapp in Hof. cbn [DecimalPos.Unsigned.of_lu] in Hof.
  pose proof (digits_of_uint_are_ascii (Pos.to_uint p)) as Hd.
  assert (Es : NilZero.string_of_uint (Pos.to_uint p)
               = NilEmpty.string_of_uint (Pos.to_uint p))
    by (destruct (Pos.to_uint p); [contradiction | reflexivity..]).
  rewrite Es. split.
  - unfold isdigit.
    destruct (NilEmpty.string_of_uint (Pos.to_uint p)) eqn:E';
      [destruct (Pos.to_uint p); try discriminate; contradiction |].
    now apply ascii_digits_are_digits.
  - unfold int_of_digits. now rewrite Hd, Hof.
Qed.

(** X17: the decimal string of an index reads the item back: for every
    sequence (a list, or a string) and every position [i] inside it,
    [_GetValue] with the index [str(i)], the name that a [[for:...]]
    block gives to its [i]-th turn, returns the [i]-th item; at and
    beyond the length it returns the default. *)
Theorem decimal_index_reads_item
        (v : Value) (i : nat) (default : Value) :
  isSequence v = true ->
  _GetValue v (str_of_nat i) default
  = match nth_error (items_of v) i with
    | Some x => Ok x
    | None => Ok default
    end.
Proof.
  intros Hs. destruct (str_of_nat_digits i) as [Hd Hi].
  unfold _GetValue.
  replace (isMapping v) with false by (destruct v; try discriminate; reflexivity).
  rewrite Hs, Hd, Hi. cbn [andb].
  rewrite (length_items_of v Hs).
  destruct (nth_error (items_of v) i) as [x|] eqn:En.
  - assert (i < List.length (items_of v))
      by (apply nth_error_Some; congruence).
    destruct (Z.ltb_spec (Z.of_nat i) (Z.of_nat (List.length (items_of v))));
      [| lia].
    now apply getitem_int_items.
  - apply nth_error_None in En.
    destruct (Z.ltb_spec (Z.of_nat i) (Z.of_nat (List.length (items_of v))));
      [lia | reflexivity].
Qed.

Lemma decimal_index_reads_item_witness :
  _GetValue (VStr "abcdefghijklm") (str_of_nat 11) VNone
  = match nth_error (items_of (VStr "abcdefghijklm")) 11 with
    | Some x => Ok x
    | None => Ok VNone
    end.
Proof.
  apply (decimal_index_reads_item (VStr "abcdefghijklm") 11 VNone eq_refl).
Defined.

(** ** Fields that name a request parameter *)

Lemma split_append (sep : ascii) (a b : string) :
  has_char sep a = false ->
  split sep (a ++ String sep b) = a :: split sep b.
Proof.
  induction a as [|c a IH]; cbn [has_char split append].
  - now rewrite Ascii.eqb_refl.
  - destruct (Ascii.eqb c sep); cbn [orb]; [discriminate |].
    intros H. now rewrite (IH H).
Qed.

Lemma eqb_has_char_false (c : ascii) (s t : string) :
  has_char c s = true -> has_char c t = false -> String.eqb s t = false.
Proof.
  intros Hs Ht. apply String.eqb_neq. intros ->. congruence.
Qed.

(** X18: a field [*x] stands for the request parameter [x]: in a path
    written root.*x, the value of the root field is indexed by the
    string of the first item of [_params[x]], the first element of a
    repeated parameter and, since a string is a sequence too, the first
    character of a parameter that is a plain string. *)
Theorem star_field_dereferences_parameter
        (specials : list (string * Value)) (params : Value) (name : string)
        (root x : string) (default : Value)
        (ps : list (string * Value)) (q first : Value) (others : list Value) :
  has_char "." root = false ->
  startswith root "*" = false ->
  has_char "." x = false ->
  String.eqb x "_this" = false ->
  lookup "_params" specials = Some (VDict ps) ->
  lookup x ps = Some q ->
  isSequence q = true ->
  items_of q = first :: others ->
  _ExpandValue specials params name (root ++ String "." ("*" ++ x)) default
  = (v <~ _GetValue (if startswith root "_" then VDict specials else params)
                    root default ;;
     _GetValue v (str first) default).
Proof.
  intros Hr Hstar Hx Hthis Hp Hq Hs Hi.
  assert (Hdot : has_char "." (root ++ String "." ("*" ++ x)) = true)
    by (rewrite has_char_append; cbn; apply orb_true_r).
  unfold _ExpandValue.
  rewrite (eqb_has_char_false "." _ "_key" Hdot eq_refl).
  rewrite (eqb_has_char_false "." _ "_this" Hdot eq_refl).
  replace (startswith (root ++ String "." ("*" ++ x)) "_")
    with (startswith root "_")
    by (unfold startswith; destruct root;
        [reflexivity | symmetry; apply prefix_append_le; cbn; lia]).
  rewrite (split_append _ _ _ Hr).
  cbn [append]. rewrite (split_no_sep "." (String "*" x))
    by (cbn [has_char Ascii.eqb Bool.eqb orb]; exact Hx).
  cbn [_ExpandValue_loop]. unfold _ExpandValue_step at 1.
  destruct (String.eqb_spec root "*_this") as [->|_]; [discriminate |].
  rewrite Hstar. cbn [bindR str].
  destruct (_GetValue _ root default) as [v|e]; [| reflexivity].
  cbn [bindR]. unfold _ExpandValue_step.
  replace (String.eqb (String "*" x) "*_this") with false
    by (cbn [String.eqb Ascii.eqb Bool.eqb]; now rewrite Hthis).
  change (startswith (String "*" x) "*") with (String.prefix EmptyString x).
  rewrite prefix_empty, slice_from_cons.
  cbn [getitem_key]. rewrite Hp. cbn [bindR].
  unfold _GetValue at 1. cbn [isMapping contains andb getitem_key].
  rewrite Hq. cbn [bindR]. rewrite Hs.
  assert (E0 : getitem_int q 0 = Ok first)
    by (apply (getitem_int_items q 0 first Hs); now rewrite Hi).
  rewrite E0. cbn [bindR]. now destruct (_GetValue v (str first) default).
Qed.

Lemma star_field_dereferences_witness :
  _ExpandValue [("_db", VDict [("a", VInt 1); ("ann", VInt 2)]);
                ("_params", VDict [("uid", VStr "ann")])]
               VNone EmptyString ("_db" ++ String "." ("*" ++ "uid"))
               (VStr EmptyString)
  = (v <~ _GetValue (if startswith "_db" "_"
                     then VDict [("_db", VDict [("a", VInt 1); ("ann", VInt 2)]);
                                 ("_params", VDict [("uid", VStr "ann")])]
                     else VNone)
                    "_db" (VStr EmptyString) ;;
     _GetValue v (str (VStr "a")) (VStr EmptyString)).
Proof.
  apply (star_field_dereferences_parameter
           [("_db", VDict [("a", VInt 1); ("ann", VInt 2)]);
            ("_params", VDict [("uid", VStr "ann")])]
           VNone EmptyString "_db" "uid" (VStr EmptyString)
           [("uid", VStr "ann")] (VStr "ann") (VStr "a")
           [VStr "n"; VStr "n"]); reflexivity.
Defined.

(** X19: a field [*x] needs the key [_params] in [specials]: where it
    is missing, the field raises a [KeyError], which leaves
    [_ExpandValue]. *)
Theorem star_field_without_params_raises
        (specials : list (string * Value)) (params : Value) (name : string)
        (x : string) (default : Value) :
  lookup "_params" specials = None ->
  has_char "." x = false ->
  String.eqb x "_this" = false ->
  _ExpandValue specials params name ("*" ++ x) default = Raise KeyError.
Proof.
  intros Hp Hdot Hthis.
  unfold _ExpandValue. cbn [append String.eqb Ascii.eqb Bool.eqb].
  change (startswith (String "*" x) "_") with false. cbv iota.
  rewrite split_no_sep by exact Hdot.
  cbn [_ExpandValue_loop]. unfold _ExpandValue_step.
  replace (String.eqb (String "*" x) "*_this") with false
    by (cbn [String.eqb Ascii.eqb Bool.eqb]; now rewrite Hthis).
  change (startswith (String "*" x) "*") with (String.prefix EmptyString x).
  rewrite prefix_empty. cbn [getitem_key]. now rewrite Hp.
Qed.

Lemma star_field_without_params_witness :
  _ExpandValue [("_db", VDict [])] (VDict [("uid", VInt 1)]) EmptyString
               ("*" ++ "uid") (VStr EmptyString)
  = Raise KeyError.
Proof.
  apply (star_field_without_params_raises [("_db", VDict [])]
           (VDict [("uid", VInt 1)]) EmptyString "uid" (VStr EmptyString));
    reflexivity.
Defined.

(** * The claims on for blocks and on escapers, in full *)

(** ** What a for block is handed *)

(** [_ExpandVariable] never returns None: its last statement puts the
    empty string in its place. *)
Lemma _ExpandVariable_not_None
      (specials : list (string * Value)) (params : Value) (name : string)
      (C : Collaborators) (var : string) (v : Value) :
  _ExpandVariable specials params name C var = Ok v -> v <> VNone.
Proof.
  unfold _ExpandVariable.
  destruct (startswith var "#"); [intros [= <-]; discriminate |].
  cbv zeta.
  destruct (if (0 <=? find _ ":" 0)%Z then _ else _) as [[w escaper]|e];
    cbn [bindR]; [| discriminate].
  destruct (_ExpandValue specials params name w _) as [x|e];
    cbn [bindR]; [| discriminate].
  destruct (apply_escaper C escaper _) as [y|e]; cbn [bindR]; [| discriminate].
  intros [= <-]. destruct y; discriminate.
Qed.

(** An in-order map of computations that leave no trace leaves none. *)
Lemma mapM_no_trace {A B} (f : A -> M B) (l : list A) :
  (forall x, fst (f x) = []) -> fst (mapM f l) = [].
Proof.
  intros Hf. induction l as [|x l IH]; cbn [mapM]; [reflexivity |].
  specialize (Hf x). destruct (f x) as [tr [[y|e]|]]; cbn [fst] in Hf; subst tr;
    cbn [bind fst]; try reflexivity.
  destruct (mapM f l) as [tr' [[ys|e]|]]; cbn [fst] in IH; subst tr';
    reflexivity.
Qed.

(** C5, as the code has it.  [_ExpandFor] on a value that is neither a
    mapping nor a sequence for Python, that is on None, a boolean or a
    number, logs "Error: Invalid type: " followed by the tag and returns
    the empty string; a [[for:expr]] block whose argument resolves to
    such a value (a boolean or a number: the resolver never returns
    None) logs it and contributes the empty string.  A string is a
    sequence: on a string [_ExpandFor] expands the body once for each
    character, in order, with [params] bound to the character and
    [name] to its index, and logs nothing itself; so does the block. *)
Theorem for_block_over_scalar :
  (forall (expand : string -> list (string * Value) -> Value -> string -> M string)
          (tag body : string) (specials : list (string * Value)) (v : Value),
      isMapping v = false -> isSequence v = false ->
      _ExpandFor expand tag body specials v
      = ([EvLog ("Error: Invalid type: " ++ tag)], Some (Ok EmptyString)))
  /\ (forall v,
         (isMapping v = false /\ isSequence v = false)
         <-> (v = VNone \/ (exists b, v = VBool b) \/ (exists z, v = VInt z)))
  /\ (forall (C : Collaborators) (fuel : nat)
             (specials : list (string * Value)) (params : Value) (name : string)
             (pre expr body post : string) (v : Value),
         first_block pre ("for:" ++ expr) body = true ->
         _ExpandVariable specials params name C expr = Ok v ->
         isMapping v = false ->
         isSequence v = false ->
         _ExpandBlocks C (ExpandTemplate C fuel)
                       (pre ++ block_text ("for:" ++ expr) body ++ post)
                       specials params name
         = (_Log ("Error: Invalid type: for:" ++ expr) ;;;
            r <- _ExpandBlocks C (ExpandTemplate C fuel) post specials params name ;;
            ret (pre ++ r)))
  /\ (forall (specials : list (string * Value)) (params : Value) (name : string)
             (C : Collaborators) (var : string) (v : Value),
         _ExpandVariable specials params name C var = Ok v -> v <> VNone)
  /\ (forall (expand : string -> list (string * Value) -> Value -> string
                       -> M string)
             (tag body : string) (specials : list (string * Value)) (s : string),
         _ExpandFor expand tag body specials (VStr s)
         = (parts <- mapM (fun p => expand body specials
                                           (VStr (String (snd p) EmptyString))
                                           (str_of_nat (fst p)))
                          (enumerate (list_ascii_of_string s)) ;;
            ret (concat parts))
         /\ ((forall t sp pa na, fst (expand t sp pa na) = []) ->
             fst (_ExpandFor expand tag body specials (VStr s)) = []))
  /\ (forall (C : Collaborators) (fuel : nat)
             (specials : list (string * Value)) (params : Value) (name : string)
             (pre expr body post s : string),
         first_block pre ("for:" ++ expr) body = true ->
         _ExpandVariable specials params name C expr = Ok (VStr s) ->
         _ExpandBlocks C (ExpandTemplate C fuel)
                       (pre ++ block_text ("for:" ++ expr) body ++ post)
                       specials params name
         = (parts <- mapM (fun p => ExpandTemplate C fuel body specials
                                      (VStr (String (snd p) EmptyString))
                                      (str_of_nat (fst p)))
                          (enumerate (list_ascii_of_string s)) ;;
            r <- _ExpandBlocks C (ExpandTemplate C fuel) post specials params name ;;
            ret (pre ++ concat parts ++ r))).
Proof.
  assert (Hstr : forall (expand : string -> list (string * Value) -> Value
                                  -> string -> M string)
                        tag body specials s,
             _ExpandFor expand tag body specials (VStr s)
             = (parts <- mapM (fun p => expand body specials
                                               (VStr (String (snd p) EmptyString))
                                               (str_of_nat (fst p)))
                              (enumerate (list_ascii_of_string s)) ;;
                ret (concat parts))).
  { intros expand tag body specials s.
    rewrite (_ExpandFor_sequence expand tag body specials (VStr s) eq_refl).
    cbn [items_of]. unfold enumerate. rewrite length_map.
    f_equal.
    generalize 0.
    induction (list_ascii_of_string s) as [|c l IH]; intros n;
      cbn [map List.length seq combine mapM fst snd]; [reflexivity |].
    now rewrite IH. }
  repeat apply conj.
  - intros expand tag body specials v Hm Hs. unfold _ExpandFor.
    now rewrite Hm, Hs.
  - intros v. split.
    + intros [Hm Hs]. destruct v; try discriminate; eauto.
    + intros [->|[[b ->]|[z ->]]]; split; reflexivity.
  - intros C fuel specials params name pre expr body post v Hfb Hv Hm Hs.
    rewrite (_ExpandBlocks_block _ _ _ _ _ _ _ _ _ Hfb).
    rewrite _ExpandBlock_for, Hv, bind_lift_Ok.
    unfold _ExpandFor. rewrite Hm, Hs.
    rewrite bind_assoc. apply bind_ext. intros _. now rewrite bind_ret_l.
  - exact _ExpandVariable_not_None.
  - intros expand tag body specials s. split; [apply Hstr |].
    intros Hq. rewrite Hstr.
    pose proof (mapM_no_trace
                  (fun p => expand body specials
                                   (VStr (String (snd p) EmptyString))
                                   (str_of_nat (fst p)))
                  (enumerate (list_ascii_of_string s))
                  (fun p => Hq _ _ _ _)) as Hn.
    destruct (mapM _ _) as [tr [[parts|e]|]]; cbn [fst] in Hn; subst tr;
      reflexivity.
  - intros C fuel specials params name pre expr body post s Hfb Hv.
    rewrite (_ExpandBlocks_block _ _ _ _ _ _ _ _ _ Hfb).
    rewrite _ExpandBlock_for, Hv, bind_lift_Ok, Hstr.
    rewrite bind_assoc. apply bind_ext. intros parts. now rewrite bind_ret_l.
Qed.

Lemma for_block_over_scalar_witness :
  _ExpandFor (ExpandTemplate no_files 1) "for:n" "{{_this}}-" [] VNone
  = ([EvLog "Error: Invalid type: for:n"], Some (Ok EmptyString))
  /\ _ExpandBlocks no_files (ExpandTemplate no_files 1)
                   ("a" ++ block_text ("for:" ++ "n") "{{_this}}-" ++ "z")
                   [] (VDict [("n", VInt 3)]) EmptyString
     = ([EvLog "Error: Invalid type: for:n"], Some (Ok "az"))
  /\ _ExpandBlocks no_files (ExpandTemplate no_files 1)
                   ("a" ++ block_text ("for:" ++ "s") "{{_key}}{{_this}}-" ++ "z")
                   [] (VDict [("s", VStr "xyz")]) EmptyString
     = ([], Some (Ok "a0x-1y-2z-z")).
Proof.
  split; [| split].
  - apply (proj1 for_block_over_scalar (ExpandTemplate no_files 1) "for:n"
             "{{_this}}-" [] VNone eq_refl eq_refl).
  - rewrite (proj1 (proj2 (proj2 for_block_over_scalar)) no_files 1 []
               (VDict [("n", VInt 3)]) EmptyString "a" "n" "{{_this}}-" "z"
               (VInt 3) eq_refl eq_refl eq_refl eq_refl).
    reflexivity.
  - rewrite (proj2 (proj2 (proj2 (proj2 (proj2 for_block_over_scalar))))
               no_files 1 [] (VDict [("s", VStr "xyz")]) EmptyString
               "a" "s" "{{_key}}{{_this}}-" "z" "xyz" eq_refl eq_refl).
    reflexivity.
Defined.

(** ** The key and the value inside a for block *)

(** C8: a [[for:expr]] block whose argument resolves to a mapping
    contributes the concatenation, over the keys in iteration order, of
    the expansions of its body by [ExpandTemplate] with [params] bound to
    the value at the key and [name] bound to the key.  Whatever
    [specials] holds, _key resolves to [name] and _this to [params], so
    that the body "{{_key}}={{_this}}|" expanded for a key and its value
    is the key, "=", the string of the value and "|".  In particular
    "[[for:m]]{{_key}}={{_this}}|[[/for:m]]" over {"x": 1, "y": 2}
    expands to "x=1|y=2|". *)
Theorem for_block_over_mapping :
  (forall (C : Collaborators) (fuel : nat)
          (specials : list (string * Value)) (params : Value) (name : string)
          (pre expr body post : string) (kvs : list (string * Value)),
      first_block pre ("for:" ++ expr) body = true ->
      _ExpandVariable specials params name C expr = Ok (VDict kvs) ->
      NoDup (map fst kvs) ->
      _ExpandBlocks C (ExpandTemplate C fuel)
                    (pre ++ block_text ("for:" ++ expr) body ++ post)
                    specials params name
      = (parts <- mapM (fun kv => ExpandTemplate C fuel body specials
                                                 (snd kv) (fst kv)) kvs ;;
         r <- _ExpandBlocks C (ExpandTemplate C fuel) post specials params name ;;
         ret (pre ++ concat parts ++ r)))
  /\ (forall (C : Collaborators) (specials : list (string * Value))
             (params : Value) (name : string) (default : Value),
         _ExpandValue specials params name "_key" default = Ok (VStr name)
         /\ _ExpandValue specials params name "_this" default = Ok params
         /\ _ExpandVariable specials params name C "_key" = Ok (VStr name)
         /\ _ExpandVariable specials params name C "_this"
            = Ok (match params with VNone => VStr EmptyString | _ => params end))
  /\ (forall (C : Collaborators) (fuel : nat)
             (specials : list (string * Value)) (value : Value) (key : string),
         ExpandTemplate C (S fuel) "{{_key}}={{_this}}|" specials value key
         = ([], Some (Ok (key ++ "="
                              ++ str (match value with
                                      | VNone => VStr EmptyString
                                      | _ => value
                                      end) ++ "|"))))
  /\ (forall (C : Collaborators) (specials : list (string * Value)),
         ExpandTemplate C 2 "[[for:m]]{{_key}}={{_this}}|[[/for:m]]" specials
                        (VDict [("m", VDict [("x", VInt 1); ("y", VInt 2)])])
                        EmptyString
         = ([], Some (Ok "x=1|y=2|"))).
Proof.
  split; [| split; [| split]].
  - intros C fuel specials params name pre expr body post kvs Hfb Hv Hnd.
    rewrite (_ExpandBlocks_block _ _ _ _ _ _ _ _ _ Hfb).
    rewrite _ExpandBlock_for, Hv, bind_lift_Ok.
    rewrite (_ExpandFor_mapping _ _ _ _ _ Hnd).
    rewrite bind_assoc. apply bind_ext. intros parts.
    now rewrite bind_ret_l.
  - intros C specials params name default. repeat split; reflexivity.
  - intros C fuel specials value key. cbn [ExpandTemplate].
    rewrite _ExpandBlocks_no_open by reflexivity.
    rewrite bind_ret_l. unfold lift.
    change "{{_key}}={{_this}}|"
      with (EmptyString ++ VAR_OPEN ++ "_key" ++ VAR_CLOSE ++ "={{_this}}|").
    rewrite _ExpandVariables_var by reflexivity.
    change (_ExpandVariable specials value key C "_key") with (Ok (VStr key)).
    cbn [bindR].
    change "={{_this}}|" with ("=" ++ VAR_OPEN ++ "_this" ++ VAR_CLOSE ++ "|").
    rewrite _ExpandVariables_var by reflexivity.
    change (_ExpandVariable specials value key C "_this")
      with (Ok (match value with VNone => VStr EmptyString | _ => value end)).
    cbn [bindR].
    rewrite _ExpandVariables_no_open by reflexivity.
    reflexivity.
  - intros C specials. vm_compute. reflexivity.
Qed.

Lemma for_block_over_mapping_witness :
  _ExpandBlocks no_files (ExpandTemplate no_files 1)
                ("<" ++ block_text ("for:" ++ "m") "{{_key}}={{n}};" ++ ">")
                [("_key", VStr "no"); ("_this", VStr "no")]
                (VDict [("m", VDict [("a", VDict [("n", VInt 1)]);
                                     ("b", VDict [("n", VInt 2)])])])
                EmptyString
  = ([], Some (Ok "<a=1;b=2;>")).
Proof.
  rewrite (proj1 for_block_over_mapping no_files 1
             [("_key", VStr "no"); ("_this", VStr "no")]
             (VDict [("m", VDict [("a", VDict [("n", VInt 1)]);
                                  ("b", VDict [("n", VInt 2)])])])
             EmptyString "<" "m" "{{_key}}={{n}};" ">"
             [("a", VDict [("n", VInt 1)]); ("b", VDict [("n", VInt 2)])]).
  - reflexivity.
  - reflexivity.
  - reflexivity.
  - repeat constructor; cbn; intuition discriminate.
Defined.

(** ** An escaper that is not known *)

(** C9: an escaper name that is set and is none of text, html, pprint is
    ignored.  The expression resolves to the value that [_ExpandValue]
    gives for its path (negated if it starts with '!', the empty string
    in place of None), with no escaping applied; an exception of the
    path resolution is the only exception; the result is the one of the
    expression without escaper; and [ExpandTemplate] on a template
    holding the tag leaves an empty trace: no diagnostic is logged. *)
Theorem unknown_escaper_is_ignored
        (specials : list (string * Value)) (params : Value) (name : string)
        (C : Collaborators) (var e : string) :
  has_char ":" var = false ->
  String.eqb e "text" = false ->
  String.eqb e "html" = false ->
  String.eqb e "pprint" = false ->
  (startswith var "#" = false ->
   _ExpandVariable specials params name C (var ++ String ":" e)
   = (let inverted := startswith var "!" in
      let path := if inverted then slice_from var 1 else var in
      match _ExpandValue specials params name path (VStr EmptyString) with
      | Ok value =>
          let value := if inverted then VBool (negb (truthy value)) else value in
          Ok (match value with VNone => VStr EmptyString | _ => value end)
      | Raise ex => Raise ex
      end))
  /\ (startswith var "#" = true ->
      _ExpandVariable specials params name C (var ++ String ":" e)
      = Ok (VStr EmptyString))
  /\ _ExpandVariable specials params name C (var ++ String ":" e)
     = _ExpandVariable specials params name C var
  /\ (forall v, apply_escaper C (Some e) v = Ok v)
  /\ (forall (fuel : nat) (pre post : string),
         no_occurrence BLOCK_OPEN
                       (pre ++ VAR_OPEN ++ (var ++ String ":" e) ++ VAR_CLOSE ++ post)
         = true ->
         no_occurrence VAR_OPEN (pre ++ "{") = true ->
         no_occurrence VAR_CLOSE ((var ++ String ":" e) ++ "}") = true ->
         ExpandTemplate C (S fuel)
                        (pre ++ VAR_OPEN ++ (var ++ String ":" e) ++ VAR_CLOSE ++ post)
                        specials params name
         = ([], Some (v <~ _ExpandVariable specials params name C var ;;
                      r <~ _ExpandVariables specials params name C post ;;
                      Ok (pre ++ str v ++ r)))).
Proof.
  intros Hc Ht Hh Hp.
  assert (Ha : forall v, apply_escaper C (Some e) v = Ok v).
  { intros v. unfold apply_escaper. now rewrite Ht, Hh, Hp. }
  assert (Hsharp : startswith var "#" = true ->
                   _ExpandVariable specials params name C (var ++ String ":" e)
                   = Ok (VStr EmptyString)).
  { intros Hs. unfold _ExpandVariable.
    rewrite startswith_before_escaper by discriminate. now rewrite Hs. }
  assert (Hvalue : startswith var "#" = false ->
     _ExpandVariable specials params name C (var ++ String ":" e)
     = (let inverted := startswith var "!" in
        let path := if inverted then slice_from var 1 else var in
        match _ExpandValue specials params name path (VStr EmptyString) with
        | Ok value =>
            let value := if inverted then VBool (negb (truthy value)) else value in
            Ok (match value with VNone => VStr EmptyString | _ => value end)
        | Raise ex => Raise ex
        end)).
  { intros Hs. rewrite (_ExpandVariable_with_escaper _ _ _ _ _ _ Hc Hs).
    cbv zeta.
    destruct (_ExpandValue specials params name _ _) as [v|ex]; [| reflexivity].
    cbn [bindR]. now rewrite Ha. }
  assert (Hsame : _ExpandVariable specials params name C (var ++ String ":" e)
                  = _ExpandVariable specials params name C var).
  { destruct (startswith var "#") eqn:Hs.
    - rewrite (Hsharp eq_refl). unfold _ExpandVariable. now rewrite Hs.
    - rewrite (Hvalue eq_refl).
      rewrite (_ExpandVariable_without_escaper _ _ _ _ _ Hc Hs).
      cbv zeta.
      now destruct (_ExpandValue specials params name _ _). }
  repeat apply conj; try assumption.
  intros fuel pre post Hb Ho Hcl. cbn [ExpandTemplate].
  rewrite (_ExpandBlocks_no_open _ _ _ _ _ _ Hb).
  rewrite bind_ret_l. unfold lift.
  now rewrite (_ExpandVariables_var _ _ _ _ _ _ _ Ho Hcl), Hsame.
Qed.

Lemma unknown_escaper_witness :
  _ExpandVariable [] (VDict [("n", VStr "<b>")]) EmptyString no_files
                  ("n" ++ String ":" "upper")
  = Ok (VStr "<b>")
  /\ _ExpandVariable [] (VDict [("n", VStr "<b>")]) EmptyString no_files
                     ("!n" ++ String ":" "upper")
     = Ok (VBool false)
  /\ ExpandTemplate no_files 1
                    ("a" ++ VAR_OPEN ++ ("n" ++ String ":" "upper") ++ VAR_CLOSE ++ "z")
                    [] (VDict [("n", VStr "<b>")]) EmptyString
     = ([], Some (Ok "a<b>z")).
Proof.
  split; [| split].
  - rewrite (proj1 (unknown_escaper_is_ignored [] (VDict [("n", VStr "<b>")])
                      EmptyString no_files "n" "upper"
                      eq_refl eq_refl eq_refl eq_refl) eq_refl).
    reflexivity.
  - rewrite (proj1 (unknown_escaper_is_ignored [] (VDict [("n", VStr "<b>")])
                      EmptyString no_files "!n" "upper"
                      eq_refl eq_refl eq_refl eq_refl) eq_refl).
    reflexivity.
  - rewrite (proj2 (proj2 (proj2 (proj2
               (unknown_escaper_is_ignored [] (VDict [("n", VStr "<b>")])
                  EmptyString no_files "n" "upper"
                  eq_refl eq_refl eq_refl eq_refl))))
               0 "a" "z" eq_refl eq_refl eq_refl).
    reflexivity.
Defined.
